(** * The execution trace recorder of promptflow

    A shallow embedding of [promptflow/tracing/_tracer.py] (class [Tracer])
    and of the init context of [promptflow/_sdk/_submitter/test_submitter.py]
    (class [TestSubmitter]), with the properties the specification states
    about them.

    Python objects that are mutated in place (Trace objects, generator
    proxies) live in a store indexed by locations; operations are written in
    a state-and-exception monad over that store. *)

From stdpp Require Import gmap strings list fin_maps pretty.
From Stdlib Require Import ZArith Lia.

Open Scope string_scope.
Open Scope list_scope.

(** ** Python values *)

Definition loc := nat.

(** The values that flow through the recorder.  Objects that the recorder
    only inspects by type ([VObject]) are kept opaque and identified by
    reference; a lazy sequence, a generator proxy and the generator returned
    by [generate_from_proxy] are references into the store.  [VSelfDict k]
    is the mapping [d] built by [d = {}; d[k] = d]: a mapping that holds
    itself. *)
#[local] Set Warnings "-register-all".
Inductive pyval : Type :=
  | VNone
  | VBool (b : bool)
  | VInt (z : Z)
  | VStr (s : string)
  | VList (vs : list pyval)
  | VDict (kvs : list (pyval * pyval))
  | VSelfDict (k : string)
  | VObject (o : nat)
  | VIterator (i : loc)
  | VGeneratorProxy (p : loc)
  | VGenerator (p : loc).

(** Induction over values that reaches inside lists and mappings. *)
Section pyval_ind_nested.
Variable P : pyval -> Prop.
Hypothesis HNone : P VNone.
Hypothesis HBool : forall b, P (VBool b).
Hypothesis HInt : forall z, P (VInt z).
Hypothesis HStr : forall s, P (VStr s).
Hypothesis HList : forall vs, Forall P vs -> P (VList vs).
Hypothesis HDict : forall kvs, Forall (fun kv => P (snd kv)) kvs -> P (VDict kvs).
Hypothesis HSelfDict : forall k, P (VSelfDict k).
Hypothesis HObject : forall o, P (VObject o).
Hypothesis HIterator : forall i, P (VIterator i).
Hypothesis HProxy : forall p, P (VGeneratorProxy p).
Hypothesis HGenerator : forall p, P (VGenerator p).

Fixpoint pyval_nested_ind (v : pyval) : P v :=
  match v with
  | VNone => HNone
  | VBool b => HBool b
  | VInt z => HInt z
  | VStr s => HStr s
  | VList vs =>
      HList vs ((fix go (l : list pyval) : Forall P l :=
                   match l with
                   | [] => @List.Forall_nil _ P
                   | x :: r => @List.Forall_cons _ P x r (pyval_nested_ind x) (go r)
                   end) vs)
  | VDict kvs =>
      HDict kvs ((fix go (l : list (pyval * pyval)) : Forall (fun kv => P (snd kv)) l :=
                    match l with
                    | [] => @List.Forall_nil _ (fun kv => P (snd kv))
                    | kv :: r =>
                        @List.Forall_cons _ (fun kv => P (snd kv)) kv r
                          (match kv return P (snd kv) with (_, y) => pyval_nested_ind y end)
                          (go r)
                    end) kvs)
  | VSelfDict k => HSelfDict k
  | VObject o => HObject o
  | VIterator i => HIterator i
  | VGeneratorProxy p => HProxy p
  | VGenerator p => HGenerator p
  end.
End pyval_ind_nested.

(** [bool(v)]: Python truthiness. *)
Definition truthy (v : pyval) : bool :=
  match v with
  | VNone => false
  | VBool b => b
  | VInt z => negb (z =? 0)%Z
  | VStr s => negb (String.eqb s "")
  | VList vs => match vs with [] => false | _ => true end
  | VDict kvs => match kvs with [] => false | _ => true end
  | _ => true
  end.

(** [v is None] *)
Definition is_none (v : pyval) : bool :=
  match v with VNone => true | _ => false end.

(** [isinstance(v, str)] *)
Definition is_str (v : pyval) : bool :=
  match v with VStr _ => true | _ => false end.

(** [isinstance(v, dict) and all(isinstance(k, str) for k in v.keys())] *)
Definition is_str_keyed_dict (v : pyval) : bool :=
  match v with
  | VDict kvs => forallb (fun kv => is_str (fst kv)) kvs
  | VSelfDict _ => true
  | _ => false
  end.

(** [isinstance(v, GeneratorProxy)] *)
Definition is_generator_proxy (v : pyval) : bool :=
  match v with VGeneratorProxy _ => true | _ => false end.

(** Modelled from the spec: the class [GeneratorProxy] is not among the
    sources.  The specification (4.2) makes the proxy itself the one
    iterable over the wrapped sequence, so a proxy is a lazy sequence like
    any generator or iterator.

    [isinstance(v, collections.abc.Iterator)] *)
Definition is_iterator (v : pyval) : bool :=
  match v with
  | VIterator _ | VGeneratorProxy _ | VGenerator _ => true
  | _ => false
  end.

(** ** Exceptions *)

(** An exception object: [type(e).__qualname__] and [str(e)]. *)
Record PyError := mkPyError { err_type : string; err_msg : string }.

Inductive result (A : Type) : Type :=
  | Ok (a : A)
  | Raise (e : PyError).
Arguments Ok {A} a.
Arguments Raise {A} e.

Definition KeyError (k : string) : PyError := mkPyError "KeyError" k.
Definition RecursionError : PyError :=
  mkPyError "RecursionError" "maximum recursion depth exceeded".
Definition UserErrorException (msg : string) : PyError :=
  mkPyError "UserErrorException" msg.

(** ** The helpers the recorder imports

    [serialize] (promptflow._utils.dataclass_serializer), the encoder
    [json.dumps(_, default=default_json_encoder)] and [str] are not among the
    sources; the recorder is parametric in them.  Each of the three may
    raise: [py_str obj] is [str(obj)], which runs the object's own [__str__].
    [py_format v] is the text an f-string puts in for a list of names or a
    dictionary of inputs.  [recursion_limit] is the number of calls of
    [to_serializable] that the interpreter lets the outermost call nest
    before it raises [RecursionError].  [uuid4 n] is the text of the n-th
    identifier drawn from [uuid.uuid4()] and [utcnow n] the n-th reading of
    [datetime.utcnow().timestamp()]; a timestamp is only stored and tested
    for truth, so the number is kept as an integer count of clock units. *)
Record Helpers := mkHelpers {
  serialize : pyval -> result pyval;
  json_dumps : pyval -> result string;
  py_str : pyval -> result string;
  py_format : pyval -> string;
  recursion_limit : nat;
  uuid4 : nat -> string;
  utcnow : nat -> Z;
}.

(** ** The serialization normalizer *)

(** [str(obj)] as a value; the exception of [__str__] is passed on. *)
Definition str_value (H : Helpers) (obj : pyval) : result pyval :=
  match py_str H obj with
  | Ok s => Ok (VStr s)
  | Raise e => Raise e
  end.

(** The [try]/[except Exception] block of [to_serializable].  [obj] is
    rebound to [serialize(obj)] before the encoding is attempted, so the
    handler converts whichever object [obj] names when the exception is
    raised.  The call of [str] in the handler is not guarded: what it raises
    leaves [to_serializable]. *)
Definition try_serialize (H : Helpers) (obj : pyval) : result pyval :=
  match serialize H obj with
  | Raise _ => str_value H obj
  | Ok obj' =>
      match json_dumps H obj' with
      | Raise _ => str_value H obj'
      | Ok _ => Ok obj'
      end
  end.

(** The dict comprehension [{k: f(v) for k, v in obj.items()}]; it stops at
    the first value on which [f] raises. *)
Fixpoint dict_comprehension (f : pyval -> result pyval) (kvs : list (pyval * pyval))
  : result (list (pyval * pyval)) :=
  match kvs with
  | [] => Ok []
  | kv :: rest =>
      match f (snd kv) with
      | Raise e => Raise e
      | Ok v' =>
          match dict_comprehension f rest with
          | Raise e => Raise e
          | Ok rest' => Ok ((fst kv, v') :: rest')
          end
      end
  end.

(** [Tracer.to_serializable] with [depth] nested calls left.  The
    recursion over the values of a string-keyed mapping is outside the [try]
    block, so an exception raised for a value, and the [RecursionError] of a
    nesting deeper than the interpreter allows, leave the call.  On a
    mapping that holds itself the recursion meets the mapping again at every
    level. *)
Fixpoint to_serializable_at (H : Helpers) (depth : nat) (obj : pyval) : result pyval :=
  let nested v := match depth with
                  | S depth => to_serializable_at H depth v
                  | 0 => Raise RecursionError
                  end in
  let comprehension kvs := match dict_comprehension nested kvs with
                           | Raise e => Raise e
                           | Ok kvs' => Ok (VDict kvs')
                           end in
  match obj with
  | VDict kvs =>
      if forallb (fun kv => is_str (fst kv)) kvs
      then comprehension kvs
      else try_serialize H obj
  | VSelfDict k => comprehension [(VStr k, obj)]
  | VGeneratorProxy _ => Ok obj
  | _ => try_serialize H obj
  end.

(** [Tracer.to_serializable] *)
Definition to_serializable (H : Helpers) (obj : pyval) : result pyval :=
  to_serializable_at H (recursion_limit H) obj.

(** ** Trace objects and the recorder's state *)

Inductive TraceType := Function | Tool | LLM | Embedding | Flow.

(** Modelled from the spec: the dataclass [Trace] (contracts/trace.py) is not
    among the sources; its fields are those of the specification's data model
    (section 3).  Field [tr_x] is the attribute [x] of the object.  An
    identifier is a string or [None]; a timestamp is a number or [None];
    [children] holds references to the child objects. *)
Record Trace := mkTrace {
  tr_id : option string;
  tr_name : string;
  tr_type : TraceType;
  tr_inputs : pyval;
  tr_output : pyval;
  tr_error : pyval;
  tr_start_time : option Z;
  tr_end_time : option Z;
  tr_parent_id : option string;
  tr_node_name : option string;
  tr_children : list loc;
}.

Definition set_id (v : option string) (t : Trace) : Trace :=
  mkTrace v (tr_name t) (tr_type t) (tr_inputs t) (tr_output t) (tr_error t)
    (tr_start_time t) (tr_end_time t) (tr_parent_id t) (tr_node_name t) (tr_children t).
Definition set_inputs (v : pyval) (t : Trace) : Trace :=
  mkTrace (tr_id t) (tr_name t) (tr_type t) v (tr_output t) (tr_error t)
    (tr_start_time t) (tr_end_time t) (tr_parent_id t) (tr_node_name t) (tr_children t).
Definition set_output (v : pyval) (t : Trace) : Trace :=
  mkTrace (tr_id t) (tr_name t) (tr_type t) (tr_inputs t) v (tr_error t)
    (tr_start_time t) (tr_end_time t) (tr_parent_id t) (tr_node_name t) (tr_children t).
Definition set_error (v : pyval) (t : Trace) : Trace :=
  mkTrace (tr_id t) (tr_name t) (tr_type t) (tr_inputs t) (tr_output t) v
    (tr_start_time t) (tr_end_time t) (tr_parent_id t) (tr_node_name t) (tr_children t).
Definition set_start_time (v : option Z) (t : Trace) : Trace :=
  mkTrace (tr_id t) (tr_name t) (tr_type t) (tr_inputs t) (tr_output t) (tr_error t)
    v (tr_end_time t) (tr_parent_id t) (tr_node_name t) (tr_children t).
Definition set_end_time (v : option Z) (t : Trace) : Trace :=
  mkTrace (tr_id t) (tr_name t) (tr_type t) (tr_inputs t) (tr_output t) (tr_error t)
    (tr_start_time t) v (tr_parent_id t) (tr_node_name t) (tr_children t).
Definition set_parent_id (v : option string) (t : Trace) : Trace :=
  mkTrace (tr_id t) (tr_name t) (tr_type t) (tr_inputs t) (tr_output t) (tr_error t)
    (tr_start_time t) (tr_end_time t) v (tr_node_name t) (tr_children t).
Definition set_node_name (v : option string) (t : Trace) : Trace :=
  mkTrace (tr_id t) (tr_name t) (tr_type t) (tr_inputs t) (tr_output t) (tr_error t)
    (tr_start_time t) (tr_end_time t) (tr_parent_id t) v (tr_children t).
Definition set_children (v : list loc) (t : Trace) : Trace :=
  mkTrace (tr_id t) (tr_name t) (tr_type t) (tr_inputs t) (tr_output t) (tr_error t)
    (tr_start_time t) (tr_end_time t) (tr_parent_id t) (tr_node_name t) v.

(** [bool(s)] for an identifier: [None] and the empty string are falsy. *)
Definition id_truthy (s : option string) : bool :=
  match s with
  | Some s => negb (String.eqb s "")
  | None => false
  end.

(** [bool(x)] for a timestamp: [None] and zero are falsy. *)
Definition time_truthy (x : option Z) : bool :=
  match x with
  | Some z => negb (z =? 0)%Z
  | None => false
  end.

(** Modelled from the spec: the class [GeneratorProxy]
    (_core/generator_proxy.py) is not among the sources.  A proxy owns the
    lazy sequence it wraps, the ordered buffer of the items yielded so far
    and a completion flag (section 3). *)
Record GeneratorProxy := mkGeneratorProxy {
  gp_generator : pyval;
  gp_items : list pyval;
  gp_done : bool;
}.

(** An instance of [Tracer]; a run id is a string or [None], and
    [_current_trace_id] is a context variable whose default is the empty
    string. *)
Record Tracer := mkTracer {
  _run_id : option string;
  _node_name : option string;
  _traces : list loc;
  _current_trace_id : option string;
  _id_to_trace : gmap string loc;
}.

(** The state the recorder runs in: the Trace objects and proxies that exist,
    the class-level context variable [Tracer.context_var], the warnings
    logged so far (oldest first), and how many identifiers and clock readings
    have been drawn. *)
Record World := mkWorld {
  traces : gmap loc Trace;
  proxies : list GeneratorProxy;
  context_var : option Tracer;
  warnings : list string;
  uuids : nat;
  clock : nat;
}.

(** ** A state-and-exception monad

    An exception leaves the state as it was when it was raised. *)
Definition M (A : Type) : Type := World -> result A * World.

Definition ret {A} (a : A) : M A := fun w => (Ok a, w).
Definition raise {A} (e : PyError) : M A := fun w => (Raise e, w).
Definition bind {A B} (m : M A) (f : A -> M B) : M B :=
  fun w => match m w with
           | (Ok a, w') => f a w'
           | (Raise e, w') => (Raise e, w')
           end.
Definition lift {A} (r : result A) : M A := fun w => (r, w).

Declare Scope py_scope.
Delimit Scope py_scope with py.
Notation "x <- c1 ;; c2" := (bind c1 (fun x => c2))
  (at level 100, c1 at next level, right associativity) : py_scope.
Notation "c1 ;;; c2" := (bind c1 (fun _ => c2))
  (at level 100, right associativity) : py_scope.
Open Scope py_scope.

(** [if b: m] *)
Definition when (b : bool) (m : M unit) : M unit := if b then m else ret tt.

(** Reading and mutating a Trace object through a reference.  A reference to
    an object that does not exist cannot arise in Python; the model raises. *)
Definition get_trace (l : loc) : M Trace :=
  fun w => match traces w !! l with
           | Some t => (Ok t, w)
           | None => (Raise (mkPyError "ReferenceError" ""), w)
           end.

Definition set_traces (h : gmap loc Trace) (w : World) : World :=
  mkWorld h (proxies w) (context_var w) (warnings w) (uuids w) (clock w).

Definition modify_trace (l : loc) (f : Trace -> Trace) : M unit :=
  t <- get_trace l ;;
  fun w => (Ok tt, set_traces (<[l := f t]> (traces w)) w).

(** [logging.warning(msg)] *)
Definition logging_warning (msg : string) : M unit :=
  fun w => (Ok tt, mkWorld (traces w) (proxies w) (context_var w)
                     (warnings w ++ [msg]) (uuids w) (clock w)).

(** [str(uuid.uuid4())] *)
Definition new_uuid (H : Helpers) : M string :=
  fun w => (Ok (uuid4 H (uuids w)),
            mkWorld (traces w) (proxies w) (context_var w) (warnings w)
              (S (uuids w)) (clock w)).

(** [datetime.utcnow().timestamp()] *)
Definition utcnow_timestamp (H : Helpers) : M Z :=
  fun w => (Ok (utcnow H (clock w)),
            mkWorld (traces w) (proxies w) (context_var w) (warnings w)
              (uuids w) (S (clock w))).

(** Modelled from the spec: [GeneratorProxy(generator)] makes a new proxy
    and pulls nothing from the wrapped sequence (4.2). *)
Definition new_GeneratorProxy (generator : pyval) : M pyval :=
  fun w => (Ok (VGeneratorProxy (length (proxies w))),
            mkWorld (traces w) (proxies w ++ [mkGeneratorProxy generator [] false])
              (context_var w) (warnings w) (uuids w) (clock w)).

(** Modelled from the spec: [generate_from_proxy(proxy)] is the pass-through
    generator that yields from the proxy (4.1, [pop]). *)
Definition generate_from_proxy (proxy : pyval) : pyval :=
  match proxy with
  | VGeneratorProxy p => VGenerator p
  | v => v
  end.

(** Modelled from the spec: the class [ThreadLocalSingleton] is not among the
    sources.  [active_instance] reads the context variable, and
    [_activate_in_context] and [_deactivate_in_context] bind an instance to it
    and detach it (section 4.1, [start] and [end]).  At most one instance is
    bound at a time (section 3): [_activate_in_context] does not bind an
    instance over another one, it raises. *)
Definition active_instance : M (option Tracer) :=
  fun w => (Ok (context_var w), w).

Definition set_context_var (o : option Tracer) : M unit :=
  fun w => (Ok tt, mkWorld (traces w) (proxies w) o (warnings w) (uuids w) (clock w)).

Definition _activate_in_context (self : Tracer) : M unit :=
  instance <- active_instance ;;
  match instance with
  | Some _ =>
      raise (mkPyError "NotImplementedError"
               "Cannot set active since there is another active instance")
  | None => set_context_var (Some self)
  end.
Definition _deactivate_in_context : M unit := set_context_var None.

(** ** The recorder: class [Tracer] *)

Section TracerOps.
Context (H : Helpers).

(** [Tracer(run_id, node_name)] *)
Definition Tracer_init (run_id : option string) (node_name : option string) : Tracer :=
  mkTracer run_id node_name [] (Some "") ∅.

Definition set_current_trace_id (v : option string) (self : Tracer) : Tracer :=
  mkTracer (_run_id self) (_node_name self) (_traces self) v (_id_to_trace self).
Definition set__traces (v : list loc) (self : Tracer) : Tracer :=
  mkTracer (_run_id self) (_node_name self) v (_current_trace_id self) (_id_to_trace self).
Definition set_id_to_trace (v : gmap string loc) (self : Tracer) : Tracer :=
  mkTracer (_run_id self) (_node_name self) (_traces self) (_current_trace_id self) v.

(** [Tracer.current_run_id]: [None] without an active tracer, and also for
    an active tracer whose run id is [None]. *)
Definition current_run_id : M (option string) :=
  tracer <- active_instance ;;
  match tracer with
  | None => ret None
  | Some tracer => ret (_run_id tracer)
  end.

(** The text of a run id in a message. *)
Definition run_id_text (run_id : option string) : string :=
  match run_id with
  | Some r => r
  | None => "None"
  end.

(** [Tracer.start_tracing]; the guard is [current_run_id is not None]. *)
Definition start_tracing (run_id : option string) (node_name : option string) : M unit :=
  current_run_id <- current_run_id ;;
  match current_run_id with
  | Some current_run_id =>
      logging_warning ("Try to start tracing for run " ++ run_id_text run_id ++ " but "
                         ++ current_run_id ++ " is already active.")%string
  | None =>
      _activate_in_context (Tracer_init run_id node_name)
  end.

(** [Tracer._get_current_trace]: indexing [_id_to_trace] with a key it does
    not hold raises [KeyError]. *)
Definition _get_current_trace (self : Tracer) : M (option loc) :=
  let trace_id := _current_trace_id self in
  if negb (id_truthy trace_id) then ret None
  else
    match trace_id with
    | Some i =>
        match _id_to_trace self !! i with
        | Some l => ret (Some l)
        | None => raise (KeyError i)
        end
    | None => ret None
    end.

(** [Tracer._push]; the method mutates the Trace object behind [trace] and
    the recorder [self], whose new state is returned.  [id] is [trace.id]
    once the first statement has run: the identifier the object came with,
    or the one just drawn. *)
Definition _push (self : Tracer) (trace : loc) : M Tracer :=
  t <- get_trace trace ;;
  let assign_id := (u <- new_uuid H ;; modify_trace trace (set_id (Some u)) ;;; ret u) in
  id <- match tr_id t with
        | Some i => if String.eqb i "" then assign_id else ret i
        | None => assign_id
        end ;;
  when (truthy (tr_inputs t))
    (inputs <- lift (to_serializable H (tr_inputs t)) ;;
     modify_trace trace (set_inputs inputs)) ;;;
  modify_trace trace (set_children []) ;;;
  when (negb (time_truthy (tr_start_time t)))
    (now <- utcnow_timestamp H ;; modify_trace trace (set_start_time (Some now))) ;;;
  parent_trace <- _get_current_trace self ;;
  self <- match parent_trace with
          | None =>
              modify_trace trace (set_node_name (_node_name self)) ;;;
              ret (set__traces (_traces self ++ [trace]) self)
          | Some parent =>
              modify_trace parent (fun p => set_children (tr_children p ++ [trace]) p) ;;;
              p <- get_trace parent ;;
              modify_trace trace (set_parent_id (tr_id p)) ;;;
              ret self
          end ;;
  ret (set_id_to_trace (<[id := trace]> (_id_to_trace self))
         (set_current_trace_id (Some id) self)).

(** [Tracer.push] *)
Definition push (trace : loc) : M unit :=
  obj <- active_instance ;;
  match obj with
  | None => ret tt
  | Some obj => obj <- _push obj trace ;; set_context_var (Some obj)
  end.

(** [Tracer._format_error] *)
Definition _format_error (error : PyError) : pyval :=
  VDict [(VStr "message", VStr (err_msg error));
         (VStr "type", VStr (err_type error))].

(** [Tracer._pop] *)
Definition _pop (self : Tracer) (output : pyval) (error : option PyError)
  : M (pyval * Tracer) :=
  last_trace <- _get_current_trace self ;;
  match last_trace with
  | None =>
      logging_warning "Try to pop trace but no active trace in current context." ;;;
      ret (output, self)
  | Some last_trace =>
      output <- (if is_iterator output then new_GeneratorProxy output else ret output) ;;
      when (negb (is_none output))
        (o <- lift (to_serializable H output) ;;
         modify_trace last_trace (set_output o)) ;;;
      match error with
      | Some error => modify_trace last_trace (set_error (_format_error error))
      | None => ret tt
      end ;;;
      now <- utcnow_timestamp H ;;
      modify_trace last_trace (set_end_time (Some now)) ;;;
      t <- get_trace last_trace ;;
      let self := set_current_trace_id (tr_parent_id t) self in
      if is_generator_proxy output
      then ret (generate_from_proxy output, self)
      else ret (output, self)
  end.

(** [Tracer.pop] *)
Definition pop (output : pyval) (error : option PyError) : M pyval :=
  obj <- active_instance ;;
  match obj with
  | None => ret output
  | Some obj =>
      r <- _pop obj output error ;;
      set_context_var (Some (snd r)) ;;;
      ret (fst r)
  end.

(** Modelled from the spec: [serialize] is not among the sources; on Trace
    objects it produces the generic structured form of section 4.1, a tree
    that holds each trace's fields and, under [children], the forms of its
    children in order.  [fuel] bounds the depth of the recursion, as the
    interpreter's recursion limit does. *)
Inductive TraceJson := JTrace (t : Trace) (children : list TraceJson).

Fixpoint result_mapM {A B} (f : A -> result B) (l : list A) : result (list B) :=
  match l with
  | [] => Ok []
  | x :: r =>
      match f x with
      | Raise e => Raise e
      | Ok y =>
          match result_mapM f r with
          | Raise e => Raise e
          | Ok ys => Ok (y :: ys)
          end
      end
  end.

Fixpoint serialize_trace (fuel : nat) (h : gmap loc Trace) (l : loc) : result TraceJson :=
  match fuel with
  | 0 => Raise RecursionError
  | S fuel =>
      match h !! l with
      | None => Raise (mkPyError "ReferenceError" "")
      | Some t =>
          match result_mapM (serialize_trace fuel h) (tr_children t) with
          | Raise e => Raise e
          | Ok cs => Ok (JTrace t cs)
          end
      end
  end.

(** [Tracer.to_json]: [serialize(self._traces)] *)
Definition to_json (fuel : nat) (self : Tracer) : M (list TraceJson) :=
  fun w => (result_mapM (serialize_trace fuel (traces w)) (_traces self), w).

(** [Tracer.end_tracing]; [run_id] is [None] when the argument is left out. *)
Definition end_tracing (fuel : nat) (run_id : option string) : M (list TraceJson) :=
  tracer <- active_instance ;;
  match tracer with
  | None => ret []
  | Some tracer =>
      match run_id with
      | Some r =>
          if negb (bool_decide (_run_id tracer = Some r)) then ret []
          else _deactivate_in_context ;;; to_json fuel tracer
      | None => _deactivate_in_context ;;; to_json fuel tracer
      end
  end.

(** The number of nodes of a returned tree: the root and all its transitive
    children. *)
Fixpoint json_size (j : TraceJson) : nat :=
  match j with
  | JTrace _ cs => S (sum_list_with json_size cs)
  end.

Definition forest_size (js : list TraceJson) : nat := sum_list_with json_size js.

(** ** Sequences of recorder calls *)

Inductive op :=
  | OpPush (trace : loc)
  | OpPop (output : pyval) (error : option PyError).

Definition step (o : op) : M unit :=
  match o with
  | OpPush trace => push trace
  | OpPop output error => pop output error ;;; ret tt
  end.

Fixpoint run (ops : list op) : M unit :=
  match ops with
  | [] => ret tt
  | o :: ops => step o ;;; run ops
  end.

(** The objects handed to [push], in call order. *)
Fixpoint pushed (ops : list op) : list loc :=
  match ops with
  | [] => []
  | OpPush l :: ops => l :: pushed ops
  | OpPop _ _ :: ops => pushed ops
  end.

End TracerOps.

(** ** The teardown gate *)

Module Gate.

(** Modelled from the spec: [destroy_if_all_generators_exhausted] and the
    executor proxy that carries it are not among the sources.  The gate of
    the specification (sections 3, 4.2 and 4.3) is modelled from its words: a
    streaming proxy owns what is left of the wrapped sequence, the buffer of
    the items yielded so far and a completion flag; the gate holds the
    registered proxies and the resource they depend on. *)
Record StreamProxy := mkStreamProxy {
  underlying : list pyval;
  buffer : list pyval;
  done : bool;
}.

Record TeardownGate := mkTeardownGate {
  registry : list StreamProxy;
  resource_alive : bool;
}.

(** Modelled from the spec: construction wraps a lazy sequence and consumes
    nothing (4.2). *)
Definition wrap (items : list pyval) : StreamProxy := mkStreamProxy items [] false.

(** Modelled from the spec: one request for the next item pulls it from the
    wrapped sequence, appends it to the buffer and yields it; when the
    sequence signals completion the proxy marks itself done (4.2). *)
Definition next (p : StreamProxy) : option pyval * StreamProxy :=
  match underlying p with
  | x :: rest => (Some x, mkStreamProxy rest (buffer p ++ [x]) (done p))
  | [] => (None, mkStreamProxy [] (buffer p) true)
  end.

(** A consumer that reads the proxy to the end: it asks for items until the
    sequence signals completion. *)
Fixpoint drain (fuel : nat) (p : StreamProxy) : StreamProxy :=
  match fuel with
  | 0 => p
  | S fuel =>
      match next p with
      | (Some _, p') => drain fuel p'
      | (None, p') => p'
      end
  end.

Definition exhaust (p : StreamProxy) : StreamProxy := drain (S (length (underlying p))) p.

(** Modelled from the spec: [register(proxy)] (4.3). *)
Definition register (p : StreamProxy) (g : TeardownGate) : TeardownGate :=
  mkTeardownGate (registry g ++ [p]) (resource_alive g).

(** The consumer of the [i]-th registered proxy reads it to the end. *)
Definition exhaust_at (i : nat) (g : TeardownGate) : TeardownGate :=
  mkTeardownGate (alter exhaust i (registry g)) (resource_alive g).

(** The consumer of the [i]-th registered proxy asks for one item. *)
Definition next_at (i : nat) (g : TeardownGate) : TeardownGate :=
  mkTeardownGate (alter (fun p => snd (next p)) i (registry g)) (resource_alive g).

(** Modelled from the spec: [all_exhausted()] (4.3). *)
Definition all_exhausted (g : TeardownGate) : bool := forallb done (registry g).

Inductive release_outcome := Released | Retry.

(** Modelled from the spec: [release_when_ready(resource)] (4.3), with the
    policy that rejects the request with a retryable condition while a
    stream is open.  [destroy_if_all_generators_exhausted], which the
    teardown of [init] calls, is this request. *)
Definition release_when_ready (g : TeardownGate) : release_outcome * TeardownGate :=
  if all_exhausted g then (Released, mkTeardownGate (registry g) false)
  else (Retry, g).

(** What can happen to a gate. *)
Inductive event :=
  | Register (p : StreamProxy)
  | Next (i : nat)
  | Exhaust (i : nat)
  | Release.

Definition apply_event (e : event) (g : TeardownGate) : TeardownGate :=
  match e with
  | Register p => register p g
  | Next i => next_at i g
  | Exhaust i => exhaust_at i g
  | Release => snd (release_when_ready g)
  end.

Fixpoint apply_events (es : list event) (g : TeardownGate) : TeardownGate :=
  match es with
  | [] => g
  | e :: es => apply_events es (apply_event e g)
  end.

End Gate.

(** ** The init context of [TestSubmitter] *)

Module Submitter.

(** [flow.language]: one of the constants [FlowLanguage.Python] and
    [FlowLanguage.CSharp], or another language, given by its text. *)
Inductive FlowLanguage := Python | CSharp | OtherLanguage (name : string).

(** A relative path as [pathlib] holds it, by its parts: [Path(".")] has no
    part, and [p / name] adds one at the end. *)
Definition RelPath := list string.

Definition Path_dot : RelPath := [].

Definition path_div (p : RelPath) (name : string) : RelPath := p ++ [name].

(** A flow as the submitter uses it: language, path of the flow file and
    code directory. *)
Record Flow := mkFlow {
  language : FlowLanguage;
  path : string;
  code : string;
}.

(** The attributes of a [TestSubmitter] that are set within the init
    context, and the flow.  [_executor_proxy] refers to the execution
    service, whose release is gated. *)
Record TestSubmitter := mkTestSubmitter {
  _flow : option Flow;
  _origin_flow : Flow;
  _output_base : option string;
  _relative_flow_output_path : option RelPath;
  _connections : option pyval;
  _target_node : option string;
  _enable_stream_output : option bool;
  _executor_proxy : option loc;
  _within_init_context : bool;
}.

(** [TestSubmitter.__init__] *)
Definition TestSubmitter_init (flow : Flow) : TestSubmitter :=
  mkTestSubmitter (Some flow) flow None None None None None None false.

Definition rbind {A B} (r : result A) (f : A -> result B) : result B :=
  match r with
  | Ok a => f a
  | Raise e => Raise e
  end.

(** [TestSubmitter._raise_if_not_within_init_context] *)
Definition _raise_if_not_within_init_context (self : TestSubmitter) : result unit :=
  if negb (_within_init_context self)
  then Raise (UserErrorException "This method should be called within the init context.")
  else Ok tt.

(** The guarded properties. *)
Definition executor_proxy (self : TestSubmitter) : result (option loc) :=
  rbind (_raise_if_not_within_init_context self) (fun _ => Ok (_executor_proxy self)).
Definition enable_stream_output (self : TestSubmitter) : result (option bool) :=
  rbind (_raise_if_not_within_init_context self) (fun _ => Ok (_enable_stream_output self)).
Definition flow (self : TestSubmitter) : result (option Flow) :=
  rbind (_raise_if_not_within_init_context self) (fun _ => Ok (_flow self)).
Definition output_base (self : TestSubmitter) : result (option string) :=
  rbind (_raise_if_not_within_init_context self) (fun _ => Ok (_output_base self)).
Definition relative_flow_output_path (self : TestSubmitter) : result (option RelPath) :=
  rbind (_raise_if_not_within_init_context self)
    (fun _ => Ok (_relative_flow_output_path self)).
Definition target_node (self : TestSubmitter) : result (option string) :=
  rbind (_raise_if_not_within_init_context self) (fun _ => Ok (_target_node self)).

(** [TestSubmitter.flow_test] and [TestSubmitter.node_test]; [execute] stands
    for the execution itself, which belongs to the executor. *)
Definition flow_test (execute : TestSubmitter -> result pyval) (self : TestSubmitter)
  : result pyval :=
  rbind (_raise_if_not_within_init_context self) (fun _ =>
  rbind (target_node self) (fun node =>
  if id_truthy node
  then Raise (UserErrorException "target_node is not allowed for flow test.")
  else execute self)).

Definition node_test (execute : TestSubmitter -> result pyval) (self : TestSubmitter)
  : result pyval :=
  rbind (_raise_if_not_within_init_context self) (fun _ =>
  rbind (target_node self) (fun node =>
  match node with
  | None => Raise (UserErrorException "target_node is required for node test.")
  | Some _ =>
      rbind (flow self) (fun f =>
      match f with
      | Some (mkFlow CSharp _ _) =>
          Raise (mkPyError "NotSupported" "Node test is not supported for CSharp flow for now.")
      | _ => execute self
      end)
  end)).

(** The arguments of [init] that the modelled attributes depend on, and what
    the collaborators called while the context is set up hand back: the flow
    with the variant resolved, the outcome of [SubmitterHelper.init_env], the
    resolved connections, the execution service that
    [CSharpExecutorProxy.create] starts, and the constant
    [PROMPT_FLOW_DIR_NAME]. *)
Record InitArgs := mkInitArgs {
  arg_connections : option pyval;
  arg_target_node : option string;
  arg_output_path : option string;
  arg_stream_output : bool;
}.

Record Collaborators := mkCollaborators {
  temp_flow : Flow;
  init_env : result unit;
  resolved_connections : pyval;
  created_executor_proxy : loc;
  PROMPT_FLOW_DIR_NAME : string;
}.

(** [TestSubmitter._resolve_connections] *)
Definition _resolve_connections (c : Collaborators) (f : Flow) : result pyval :=
  match language f with
  | CSharp | Python => Ok (resolved_connections c)
  | OtherLanguage name =>
      Raise (UserErrorException ("Unsupported flow language " ++ name)%string)
  end.

(** [TestSubmitter._resolve_output_path]: the output base and the
    sub-directory, [Path(".")] or [Path(PROMPT_FLOW_DIR_NAME)]; the constant
    is the name of one directory. *)
Definition _resolve_output_path (c : Collaborators) (output_base : option string)
    (default : string) : string * RelPath :=
  if id_truthy output_base
  then (match output_base with Some b => b | None => default end, Path_dot)
  else (default, [PROMPT_FLOW_DIR_NAME c]).

(** Attribute updates, with the state left as it is when a statement
    raises. *)
Definition St (A : Type) : Type := TestSubmitter -> result A * TestSubmitter.

Definition sret {A} (a : A) : St A := fun s => (Ok a, s).
Definition sbind {A B} (m : St A) (f : A -> St B) : St B :=
  fun s => match m s with
           | (Ok a, s') => f a s'
           | (Raise e, s') => (Raise e, s')
           end.
Definition slift {A} (r : TestSubmitter -> result A) : St A := fun s => (r s, s).
Definition update (f : TestSubmitter -> TestSubmitter) : St unit := fun s => (Ok tt, f s).

Definition set_flow (v : option Flow) (s : TestSubmitter) : TestSubmitter :=
  mkTestSubmitter v (_origin_flow s) (_output_base s) (_relative_flow_output_path s)
    (_connections s) (_target_node s) (_enable_stream_output s) (_executor_proxy s)
    (_within_init_context s).
Definition set_within_init_context (v : bool) (s : TestSubmitter) : TestSubmitter :=
  mkTestSubmitter (_flow s) (_origin_flow s) (_output_base s) (_relative_flow_output_path s)
    (_connections s) (_target_node s) (_enable_stream_output s) (_executor_proxy s) v.
Definition set_target (node : option string) (stream : bool) (s : TestSubmitter)
  : TestSubmitter :=
  mkTestSubmitter (_flow s) (_origin_flow s) (_output_base s) (_relative_flow_output_path s)
    (_connections s) node (Some stream) (_executor_proxy s) (_within_init_context s).
Definition set_output (base : string) (sub : RelPath) (s : TestSubmitter) : TestSubmitter :=
  mkTestSubmitter (_flow s) (_origin_flow s) (Some base) (Some (path_div sub "output"))
    (_connections s) (_target_node s) (_enable_stream_output s) (_executor_proxy s)
    (_within_init_context s).
Definition set_connections (v : pyval) (s : TestSubmitter) : TestSubmitter :=
  mkTestSubmitter (_flow s) (_origin_flow s) (_output_base s) (_relative_flow_output_path s)
    (Some v) (_target_node s) (_enable_stream_output s) (_executor_proxy s)
    (_within_init_context s).
Definition set_executor_proxy (v : option loc) (s : TestSubmitter) : TestSubmitter :=
  mkTestSubmitter (_flow s) (_origin_flow s) (_output_base s) (_relative_flow_output_path s)
    (_connections s) (_target_node s) (_enable_stream_output s) v
    (_within_init_context s).

(** [TestSubmitter.init] up to its [yield]: the statements of
    [_resolve_variant] before its own [yield], then those of [init]. *)
Definition init_enter (a : InitArgs) (c : Collaborators) : St unit :=
  sbind (update (set_flow (Some (temp_flow c)))) (fun _ =>
  sbind (update (set_within_init_context true)) (fun _ =>
  sbind (update (set_target (arg_target_node a) (arg_stream_output a))) (fun _ =>
  sbind (slift (fun _ => init_env c)) (fun _ =>
  sbind (slift flow) (fun f =>
  let f := match f with Some f => f | None => temp_flow c end in
  let '(base, sub) := _resolve_output_path c (arg_output_path a) (code f) in
  sbind (update (set_output base sub)) (fun _ =>
  sbind (match arg_connections a with
         | Some conns => if truthy conns then sret conns
                         else slift (fun _ => _resolve_connections c f)
         | None => slift (fun _ => _resolve_connections c f)
         end) (fun conns =>
  sbind (update (set_connections conns)) (fun _ =>
  match language f with
  | CSharp => update (set_executor_proxy (Some (created_executor_proxy c)))
  | _ => sret tt
  end)))))))).

(** How the body of the [with] statement ends. *)
Inductive body_outcome :=
  | BodyReturns
  | BodyRaises (e : PyError).

(** The [finally] clause of [init]: the execution service is released
    through the gate, and only through it. *)
Definition init_finally (self : TestSubmitter) (g : Gate.TeardownGate)
  : result Gate.TeardownGate :=
  rbind (executor_proxy self) (fun proxy =>
  match proxy with
  | Some _ => Ok (snd (Gate.release_when_ready g))
  | None => Ok g
  end).

(** [TestSubmitter.init] from its [yield] on.  When the body returns, the
    [finally] clause runs, then [_within_init_context] is reset, then the
    statements of [_resolve_variant] after its [yield] reset the flow.  When
    the body raises, the exception is raised at the [yield]: the [finally]
    clause runs and the exception leaves [init] and [_resolve_variant], whose
    remaining statements are not run. *)
Definition init_exit (outcome : body_outcome) (self : TestSubmitter)
    (g : Gate.TeardownGate) : result unit * TestSubmitter * Gate.TeardownGate :=
  match init_finally self g with
  | Raise e => (Raise e, self, g)
  | Ok g' =>
      match outcome with
      | BodyReturns =>
          (Ok tt, set_flow None (set_within_init_context false self), g')
      | BodyRaises e => (Raise e, self, g')
      end
  end.

(** [with submitter.init(...) as s: body]. *)
Definition with_init (a : InitArgs) (c : Collaborators)
    (body : TestSubmitter -> body_outcome) (self : TestSubmitter)
    (g : Gate.TeardownGate) : result unit * TestSubmitter * Gate.TeardownGate :=
  match init_enter a c self with
  | (Raise e, self') => (Raise e, self', g)
  | (Ok _, self') => init_exit (body self') self' g
  end.

End Submitter.

(** ** More of the recorder's module *)

(** [get_node_name_from_context] *)
Definition get_node_name_from_context : M (option string) :=
  tracer <- active_instance ;;
  match tracer with
  | Some tracer => ret (_node_name tracer)
  | None => ret None
  end.

(** *** Dictionaries with string keys

    A [dict] whose keys are strings, in insertion order.  Assigning to a key
    that is present replaces the value where it stands; assigning to a new
    key appends it. *)
Abbreviation pydict := (list (string * pyval)).

Fixpoint dict_get (k : string) (d : pydict) : option pyval :=
  match d with
  | [] => None
  | (k', v) :: d => if String.eqb k' k then Some v else dict_get k d
  end.

(** [k in d] *)
Definition dict_in (k : string) (d : pydict) : bool :=
  match dict_get k d with Some _ => true | None => false end.

(** [d[k] = v] *)
Fixpoint dict_set (k : string) (v : pyval) (d : pydict) : pydict :=
  match d with
  | [] => [(k, v)]
  | (k', v') :: d => if String.eqb k' k then (k, v) :: d else (k', v') :: dict_set k v d
  end.

(** [d.pop(k, None)], the dictionary that is left. *)
Fixpoint dict_pop (k : string) (d : pydict) : pydict :=
  match d with
  | [] => []
  | (k', v) :: d => if String.eqb k' k then dict_pop k d else (k', v) :: dict_pop k d
  end.

(** [d1.update(d2)], also [{**d1, **d2}] and the dictionary built from a
    sequence of items. *)
Definition dict_update (d1 : pydict) (d2 : list (string * pyval)) : pydict :=
  fold_left (fun d kv => dict_set (fst kv) (snd kv) d) d2 d1.

Definition dict_keys (d : pydict) : list string := map fst d.

(** The dictionary as a value. *)
Definition VDict_of (d : pydict) : pyval := VDict (map (fun kv => (VStr (fst kv), snd kv)) d).

(** *** Building a trace from a call *)

(** What [_create_trace_from_function_call] reads of the traced function: its
    [__qualname__], its [__module__] and the names of the parameters of its
    signature, in order. *)
Record Callable := mkCallable {
  __qualname__ : string;
  __module__ : option string;
  parameters : list string;
}.

(** [ConnectionType] (promptflow.contracts.tool) is not among the sources;
    the two methods used are parameters. *)
Record ConnectionType := mkConnectionType {
  is_connection_value : pyval -> bool;
  serialize_conn : pyval -> pyval;
}.

(** [trace_type in [TraceType.LLM, TraceType.EMBEDDING]] *)
Definition is_llm_or_embedding (ty : TraceType) : bool :=
  match ty with LLM | Embedding => true | _ => false end.

(** The dictionary [all_kwargs]: positional arguments by parameter name, then
    the keyword arguments over them, connections serialized, and [self] and
    the ignored names popped. *)
Definition all_kwargs (C : ConnectionType) (f : Callable) (args : list pyval)
    (kwargs : pydict) (args_to_ignore : list string) : pydict :=
  let all := dict_update (dict_update [] (zip (parameters f) args)) kwargs in
  let all := map (fun kv => (fst kv, if is_connection_value C (snd kv)
                                     then serialize_conn C (snd kv) else snd kv)) all in
  let all := dict_pop "self" all in
  fold_left (fun d key => dict_pop key d) args_to_ignore all.

(** [_create_trace_from_function_call]: the fields of the Trace object it
    builds.  [args] and [kwargs] left out are the empty list and the empty
    dictionary; the fields the constructor is not given keep their defaults
    (modelled from the spec: no identifier, no parent, no output, no
    error). *)
Definition _create_trace_from_function_call (H : Helpers) (C : ConnectionType)
    (f : Callable) (args : list pyval) (kwargs : pydict) (args_to_ignore : list string)
    (trace_type : TraceType) : M Trace :=
  let inputs := all_kwargs C f args kwargs args_to_ignore in
  let name := __qualname__ f in
  let name := if is_llm_or_embedding trace_type && id_truthy (__module__ f)
              then (match __module__ f with Some m => m | None => "" end ++ "." ++ name)%string
              else name in
  now <- utcnow_timestamp H ;;
  ret (mkTrace None name trace_type (VDict_of inputs) VNone VNone (Some now) None None None []).

(** ** More of the submitter's module *)

Module SubmitterData.

(** [TestSubmitter._get_generator_outputs]; [GeneratorType] is the type of
    generator objects, [is_generator] tells which values have it.  Each
    selected key is bound to the whole dictionary [outputs], as the
    comprehension is written. *)
Definition _get_generator_outputs (is_generator : pyval -> bool) (outputs : option pydict)
  : pydict :=
  let outputs := match outputs with Some d => d | None => [] end in
  dict_update []
    (map (fun kv => (fst kv, VDict_of outputs))
       (filter (fun kv => is_generator (snd kv) = true) outputs)).

(** [TestSubmitter.resolve_data] for a flow test, that is with [node_name]
    left out: the loop over the inputs the flow declares.  [declared] is
    [dataplane_flow.inputs] with the default of each input ([None] when it
    has none).  The state of the loop is the copy of [inputs] that is being
    consumed, [flow_inputs] and [missing_inputs]. *)
Definition resolve_step (chat_history_name : option string)
    (st : pydict * pydict * list string) (decl : string * pyval)
  : pydict * pydict * list string :=
  let '(inputs, flow_inputs, missing_inputs) := st in
  let '(name, default) := decl in
  match dict_get name inputs with
  | Some v => (dict_pop name inputs, dict_set name v flow_inputs, missing_inputs)
  | None =>
      if is_none default then
        if id_truthy chat_history_name
           && match chat_history_name with
              | Some c => String.eqb name c
              | None => false
              end
        then (inputs, dict_set name (VList []) flow_inputs, missing_inputs)
        else (inputs, flow_inputs, missing_inputs ++ [name])
      else (inputs, dict_set name default flow_inputs, missing_inputs)
  end.

(** The double quote character, as a string. *)
Definition dquote : string := String (Ascii.ascii_of_nat 34) "".

(** What [resolve_data] hands back: [flow_inputs] and
    [dependency_nodes_outputs], and the warning it logs if any. *)
Definition resolve_data (H : Helpers) (declared : list (string * pyval))
    (inputs : option pydict) (chat_history_name : option string)
  : result (pydict * pydict) * list string :=
  let inputs := match inputs with Some d => d | None => [] end in
  let '(inputs, flow_inputs, missing_inputs) :=
    fold_left (resolve_step chat_history_name) declared (inputs, [], []) in
  match missing_inputs with
  | _ :: _ =>
      (Raise (UserErrorException
                ("Required input(s) " ++ py_format H (VList (map VStr missing_inputs))
                   ++ " are missing for " ++ dquote ++ "flow" ++ dquote ++ ".")%string),
       [])
  | [] =>
      match inputs with
      | _ :: _ =>
          (Ok (dict_update flow_inputs inputs, []),
           [("Unknown input(s) of flow: " ++ py_format H (VDict_of inputs))%string])
      | [] => (Ok (flow_inputs, []), [])
      end
  end.

End SubmitterData.

(** ** Predicates used in the statements *)

(** Structured serialization of [v] fails: [serialize] raises, or the
    encoder rejects what [serialize] returned. *)
Definition fails_structured_serialization (H : Helpers) (v : pyval) : Prop :=
  (exists e, serialize H v = Raise e) \/
  (exists s e, serialize H v = Ok s /\ json_dumps H s = Raise e).

(** The object that [obj] names when the handler of [to_serializable] runs:
    the structured form once [serialize] has returned, else the value. *)
Definition handled (H : Helpers) (v : pyval) : pyval :=
  match serialize H v with
  | Ok s => s
  | Raise _ => v
  end.

(** The depth to which string-keyed mappings are nested in a value: the
    number of calls that [to_serializable] nests on it. *)
Fixpoint nesting (v : pyval) : nat :=
  match v with
  | VDict kvs =>
      if forallb (fun kv => is_str (fst kv)) kvs
      then (fix deepest (l : list (pyval * pyval)) : nat :=
              match l with
              | [] => 0
              | kv :: rest => Nat.max (S (nesting (snd kv))) (deepest rest)
              end) kvs
      else 0
  | _ => 0
  end.

(** The value holds, under string-keyed mappings, a mapping that holds
    itself: the recursion of [to_serializable] on it has no end. *)
Fixpoint holds_itself (v : pyval) : bool :=
  match v with
  | VSelfDict _ => true
  | VDict kvs =>
      forallb (fun kv => is_str (fst kv)) kvs
      && (fix some (l : list (pyval * pyval)) : bool :=
            match l with
            | [] => false
            | kv :: rest => holds_itself (snd kv) || some rest
            end) kvs
  | _ => false
  end.

(** A mapping nested [n] levels deep. *)
Fixpoint nest (n : nat) : pyval :=
  match n with
  | 0 => VNone
  | S n => VDict [(VStr "a", nest n)]
  end.

(** A call returns. *)
Definition returns {A} (r : result A) : bool :=
  match r with
  | Ok _ => true
  | Raise _ => false
  end.

(** The normalizer returns on what [_push] hands it for the Trace object
    [t] (inputs that are not empty), and on what [_pop] hands it for
    [output] ([None] is not normalized, and a lazy sequence is wrapped in a
    proxy first, which the normalizer hands back). *)
Definition inputs_normalize (H : Helpers) (t : Trace) : bool :=
  negb (truthy (tr_inputs t)) || returns (to_serializable H (tr_inputs t)).

Definition output_normalizes (H : Helpers) (output : pyval) : bool :=
  is_none output || is_iterator output || returns (to_serializable H output).


(** The identifier, inputs and start time a Trace object has once [_push]
    has run its first statements on it, and the object itself at that point
    (before it is attached to a parent or to the root list). *)
Definition push_id (H : Helpers) (w : World) (t : Trace) : string :=
  match tr_id t with
  | Some i => if String.eqb i "" then uuid4 H (uuids w) else i
  | None => uuid4 H (uuids w)
  end.

Definition push_inputs (H : Helpers) (t : Trace) : pyval :=
  if truthy (tr_inputs t) then
    match to_serializable H (tr_inputs t) with
    | Ok v => v
    | Raise _ => tr_inputs t
    end
  else tr_inputs t.

Definition push_start_time (H : Helpers) (w : World) (t : Trace) : option Z :=
  if time_truthy (tr_start_time t) then tr_start_time t
  else Some (utcnow H (clock w)).

Definition entered (H : Helpers) (w : World) (t : Trace) : Trace :=
  mkTrace (Some (push_id H w t)) (tr_name t) (tr_type t) (push_inputs H t)
    (tr_output t) (tr_error t) (push_start_time H w t) (tr_end_time t)
    (tr_parent_id t) (tr_node_name t) [].

(** The world after [_push] on an object that read [t]: the Trace objects
    are [h], and one identifier and one clock reading are consumed when they
    were needed. *)
Definition push_world (w : World) (t : Trace) (h : gmap loc Trace) : World :=
  mkWorld h (proxies w) (context_var w) (warnings w)
    (if id_truthy (tr_id t) then uuids w else S (uuids w))
    (if time_truthy (tr_start_time t) then clock w else S (clock w)).

Definition entered_tracer (self : Tracer) (id : string) (trace : loc) (roots : list loc)
  : Tracer :=
  mkTracer (_run_id self) (_node_name self) roots (Some id)
    (<[id := trace]> (_id_to_trace self)).

(** What [_pop] records: the output after the wrapping of a lazy sequence,
    the Trace object once output, error and end time are written, the value
    handed back to the caller, and the world afterwards. *)
Definition pop_output (w : World) (output : pyval) : pyval :=
  if is_iterator output then VGeneratorProxy (length (proxies w)) else output.

Definition exited (H : Helpers) (w : World) (t : Trace) (output : pyval)
    (error : option PyError) : Trace :=
  let out := pop_output w output in
  let t1 := if is_none out then t
            else set_output (match to_serializable H out with
                             | Ok o => o
                             | Raise _ => out
                             end) t in
  let t2 := match error with
            | Some e => set_error (_format_error e) t1
            | None => t1
            end in
  set_end_time (Some (utcnow H (clock w))) t2.

Definition pop_result (w : World) (output : pyval) : pyval :=
  let out := pop_output w output in
  if is_generator_proxy out then generate_from_proxy out else out.

Definition pop_world (w : World) (output : pyval) (h : gmap loc Trace) : World :=
  mkWorld h
    (if is_iterator output then proxies w ++ [mkGeneratorProxy output [] false]
     else proxies w)
    (context_var w) (warnings w) (uuids w) (S (clock w)).

(** Two worlds that differ at most in the warnings logged. *)
Definition same_but_warnings (w1 w2 : World) : Prop :=
  traces w1 = traces w2 /\ proxies w1 = proxies w2 /\
  context_var w1 = context_var w2 /\ uuids w1 = uuids w2 /\ clock w1 = clock w2.

(** A computation that neither reads the warnings nor lets them influence
    what it does. *)
Definition ignores_warnings {A} (m : M A) : Prop :=
  forall w1 w2, same_but_warnings w1 w2 ->
    fst (m w1) = fst (m w2) /\ same_but_warnings (snd (m w1)) (snd (m w2)).

(** The world once the context is detached. *)
Definition detached (w : World) : World :=
  mkWorld (traces w) (proxies w) None (warnings w) (uuids w) (clock w).

(** The world with one more warning logged. *)
Definition warned (msg : string) (w : World) : World :=
  mkWorld (traces w) (proxies w) (context_var w) (warnings w ++ [msg]) (uuids w) (clock w).

(** ** The call tree behind the store

    What links Trace objects to one another: identifier, parent identifier
    and children. *)
Record Link := mkLink {
  lk_id : option string;
  lk_parent : option string;
  lk_children : list loc;
}.

Definition links (t : Trace) : Link :=
  mkLink (tr_id t) (tr_parent_id t) (tr_children t).

(** A tree of references: the shape of a call tree. *)
Inductive shape := Sh (l : loc) (cs : list shape).

Section shape_induction.
Variable P : shape -> Prop.
Hypothesis Hnode : forall l cs, Forall P cs -> P (Sh l cs).

Fixpoint shape_nested_ind (s : shape) : P s :=
  match s with
  | Sh l cs =>
      Hnode l cs ((fix go (cs : list shape) : Forall P cs :=
                     match cs with
                     | [] => @List.Forall_nil _ P
                     | c :: r => @List.Forall_cons _ P c r (shape_nested_ind c) (go r)
                     end) cs)
  end.
End shape_induction.

Definition root (s : shape) : loc := match s with Sh l _ => l end.

Fixpoint size (s : shape) : nat :=
  match s with Sh _ cs => S (sum_list_with size cs) end.

Fixpoint locs (s : shape) : list loc :=
  match s with Sh l cs => l :: (cs ≫= locs) end.

(** [graft p l s]: the node [l] is added as the last child of [p]. *)
Fixpoint graft (p l : loc) (s : shape) : shape :=
  match s with
  | Sh q cs =>
      let cs' := graft p l <$> cs in
      Sh q (if decide (q = p) then cs' ++ [Sh l []] else cs')
  end.

(** The store holds the tree [s]: each node is an object whose children are
    the roots of the node's subtrees, in order. *)
Inductive Rep (L : gmap loc Link) : shape -> Prop :=
  | Rep_node l k cs :
      L !! l = Some k ->
      lk_children k = root <$> cs ->
      Forall (Rep L) cs ->
      Rep L (Sh l cs).

(** ** Runs of pushes of new trace objects

    A trace object is new to the recorder when its [parent_id] is unset and
    the identifier it will carry, its own or the one [uuid4] is about to
    return, is not empty and not in use.  A run is valid when every pushed
    object is new when it is pushed and the normalizer returns on the inputs
    and outputs handed over. *)
Definition fresh_trace (H : Helpers) (w : World) (trace : loc) : bool :=
  match context_var w, traces w !! trace with
  | Some self, Some t =>
      negb (id_truthy (tr_parent_id t))
      && negb (String.eqb (push_id H w t) "")
      && match _id_to_trace self !! push_id H w t with
         | None => true
         | Some _ => false
         end
  | _, _ => false
  end.

Definition valid_op (H : Helpers) (o : op) (w : World) : bool :=
  match o with
  | OpPush trace =>
      fresh_trace H w trace
      && match traces w !! trace with
         | Some t => inputs_normalize H t
         | None => false
         end
  | OpPop output _ => output_normalizes H output
  end.

Fixpoint valid_run (H : Helpers) (ops : list op) (w : World) : bool :=
  match ops with
  | [] => true
  | o :: ops => valid_op H o w && valid_run H ops (snd (step H o w))
  end.

(** The parent of the object [l] with links [k]: none when [l] is a root,
    else the object registered under [k]'s parent identifier, which has [l]
    among its children. *)
Definition parent_link (L : gmap loc Link) (self : Tracer) (l : loc) (k : Link) : Prop :=
  (id_truthy (lk_parent k) = false /\ l ∈ _traces self) \/
  (exists j p kp, lk_parent k = Some j /\ _id_to_trace self !! j = Some p /\
                  L !! p = Some kp /\ l ∈ lk_children kp).

(** The invariant of the recorder over the objects pushed so far, [done]. *)
Record recorder_inv (L : gmap loc Link) (self : Tracer) (done : list loc) : Prop := {
  inv_keys : forall i l, _id_to_trace self !! i = Some l ->
               i <> "" /\ l ∈ done /\ exists k, L !! l = Some k /\ lk_id k = Some i;
  inv_done : forall l, l ∈ done ->
               exists k i, L !! l = Some k /\ lk_id k = Some i /\
                           _id_to_trace self !! i = Some l /\ parent_link L self l k;
  inv_current : id_truthy (_current_trace_id self) = false \/
                exists i, _current_trace_id self = Some i /\
                          is_Some (_id_to_trace self !! i);
  inv_shape : exists forest, Forall (Rep L) forest /\
                             root <$> forest = _traces self /\
                             forest ≫= locs ≡ₚ done;
  inv_roots : _traces self `sublist_of` done;
  inv_order : forall l k, l ∈ done -> L !! l = Some k -> lk_children k `sublist_of` done;
}.

(** The records of a returned tree, root first. *)
Fixpoint json_nodes (j : TraceJson) : list Trace :=
  match j with JTrace t cs => t :: (cs ≫= json_nodes) end.

Definition json_trace (j : TraceJson) : Trace :=
  match j with JTrace t _ => t end.

(** In a returned tree, the subtrees of each node are the structured forms
    of the objects in the node's [children], one for one and in that order,
    and those objects were pushed in that order: [children] is a
    subsequence of [order], the objects pushed in call order. *)
Fixpoint in_call_order (h : gmap loc Trace) (order : list loc) (j : TraceJson) : Prop :=
  match j with
  | JTrace t cs =>
      tr_children t `sublist_of` order /\
      Forall2 (fun l c => h !! l = Some (json_trace c)) (tr_children t) cs /\
      (fix all (cs : list TraceJson) : Prop :=
         match cs with
         | [] => True
         | c :: r => in_call_order h order c /\ all r
         end) cs
  end.

(** ** Predicates for the further properties *)

(** The value recorded for an argument: a connection is replaced by its
    serialized form. *)
Definition recorded_arg (C : ConnectionType) (v : pyval) : pyval :=
  if is_connection_value C v then serialize_conn C v else v.

(** A declared flow input that [resolve_data] reports as missing: the caller
    did not provide it, it has no default, and it is not the chat history. *)
Definition required_missing (inputs : pydict) (chat_history_name : option string)
    (decl : string * pyval) : bool :=
  match dict_get (fst decl) inputs with
  | Some _ => false
  | None =>
      is_none (snd decl)
      && negb (id_truthy chat_history_name
               && match chat_history_name with
                  | Some c => String.eqb (fst decl) c
                  | None => false
                  end)
  end.

(** A computation that leaves the context variable as it is, whether it
    returns or raises, and whose results satisfy [Q]. *)
Definition keeps_context {A} (m : M A) (Q : A -> Prop) : Prop :=
  forall w, context_var (snd (m w)) = context_var w /\
            forall a, fst (m w) = Ok a -> Q a.

(** The recorder [r] is bound to the same run and node as [self]. *)
Definition same_binding (self r : Tracer) : Prop :=
  _run_id r = _run_id self /\ _node_name r = _node_name self.

(** ** A concrete instance of the helpers

    Used to run the recorder on examples.  Scalars, lists and string-keyed
    mappings are their own structured form; [VObject 0] is an object that
    [serialize] rejects; [VObject 1] is a dataclass instance whose structured
    form is a list that still holds an object, [VObject 2], which the encoder
    rejects; [VObject 5] is an object that [serialize] rejects and whose
    [__str__] raises. *)
Fixpoint encodable (v : pyval) : bool :=
  match v with
  | VNone | VBool _ | VInt _ | VStr _ => true
  | VList vs => forallb encodable vs
  | VDict kvs => forallb (fun kv => is_str (fst kv) && encodable (snd kv)) kvs
  | _ => false
  end.

Definition example_serialize (v : pyval) : result pyval :=
  match v with
  | VObject 0 | VObject 5 => Raise (mkPyError "ValueError" "cannot serialize")
  | VObject 1 => Ok (VList [VObject 2])
  | _ => Ok v
  end.

Definition example_json_dumps (v : pyval) : result string :=
  if encodable v then Ok "<json>"
  else Raise (mkPyError "TypeError" "Object is not JSON serializable").

Definition example_str (v : pyval) : result string :=
  match v with
  | VStr s => Ok s
  | VObject 1 => Ok "Point(p=<object>)"
  | VObject 5 => Raise (mkPyError "RuntimeError" "__str__ failed")
  | VList _ => Ok "[<object>]"
  | _ => Ok "<object>"
  end.

Definition example_format (v : pyval) : string :=
  match v with
  | VList _ => "[...]"
  | _ => "{...}"
  end.

Definition example_uuid4 (n : nat) : string := ("uuid-" ++ pretty n)%string.

Definition example_utcnow (n : nat) : Z := (1700000000 + Z.of_nat n)%Z.

Definition example_helpers : Helpers :=
  mkHelpers example_serialize example_json_dumps example_str example_format 3
    example_uuid4 example_utcnow.

(** A Trace object as [_create_trace_from_function_call] builds it: name,
    type, start time and inputs are given, the other fields have their
    defaults. *)
Definition new_trace (name : string) (ty : TraceType) (inputs : pyval) (start : Z) : Trace :=
  mkTrace None name ty inputs VNone VNone (Some start) None None None [].

(** The nesting scenario of the specification (section 8): three Trace
    objects, and the calls push flow, push tool_a, pop 1, push tool_b,
    pop with error E, pop 2. *)
Definition example_world : World :=
  mkWorld
    (<[0 := new_trace "flow" Flow (VDict [(VStr "question", VStr "hi")]) 10]>
       (<[1 := new_trace "tool_a" Tool (VDict []) 11]>
          (<[2 := new_trace "tool_b" Tool (VDict [(VStr "x", VObject 0)]) 12]> ∅)))
    [] None [] 0 0.

Definition example_error : PyError := mkPyError "ValueError" "E".

Definition example_ops : list op :=
  [OpPush 0; OpPush 1; OpPop (VInt 1) None; OpPush 2;
   OpPop VNone (Some example_error); OpPop (VInt 2) None].

Definition example_started : World :=
  snd (start_tracing (Some "run-1") (Some "node") example_world).

(** A context started with run id [None], after one push. *)
Definition unnamed_started : World :=
  snd (push example_helpers 0 (snd (start_tracing None (Some "node") example_world))).

(** A C# flow tested with a target node, and the collaborators' answers. *)
Definition example_flow : Submitter.Flow := Submitter.mkFlow Submitter.CSharp "flow.dag.yaml" "/flows/chat".

Definition example_args : Submitter.InitArgs :=
  Submitter.mkInitArgs None (Some "node_a") None true.

(** The same call with an output path given. *)
Definition example_args_output : Submitter.InitArgs :=
  Submitter.mkInitArgs None (Some "node_a") (Some "/tmp/out") true.

Definition example_collaborators : Submitter.Collaborators :=
  Submitter.mkCollaborators
    (Submitter.mkFlow Submitter.CSharp "flow.dag.yaml" "/tmp/resolved")
    (Ok tt) (VDict []) 1 ".promptflow".

Definition example_submitter : Submitter.TestSubmitter :=
  Submitter.TestSubmitter_init example_flow.

(** The body of the [with] statement calls [flow_test], which raises because
    a target node is set. *)
Definition example_body (s : Submitter.TestSubmitter) : Submitter.body_outcome :=
  match Submitter.flow_test (fun _ => Ok VNone) s with
  | Ok _ => Submitter.BodyReturns
  | Raise e => Submitter.BodyRaises e
  end.

Definition example_gate : Gate.TeardownGate := Gate.mkTeardownGate [] true.

(** A world in which the object to be pushed first already carries a
    [parent_id] that names no trace. *)
Definition stale_world : World :=
  mkWorld
    (<[0 := set_parent_id (Some "zz") (new_trace "flow" Flow (VDict []) 10)]>
       (<[1 := new_trace "tool_a" Tool (VDict []) 11]> ∅))
    [] None [] 0 0.

(** A method [Client.complete(self, prompt, secret)] of module [llm], and a
    connection type for which [VObject 3] is not a connection. *)
Definition example_callable : Callable :=
  mkCallable "Client.complete" (Some "llm") ["self"; "prompt"; "secret"].

Definition example_connection_type : ConnectionType :=
  mkConnectionType (fun v => match v with VObject 4 => true | _ => false end)
    (fun _ => VStr "<connection>").

(** The values that are generator objects. *)
Definition is_generator_value (v : pyval) : bool :=
  match v with VGenerator _ => true | _ => false end.
(** * Properties *)

(** ** The normalizer *)

Section NormalizerFacts.
Context (H : Helpers).

(** The equations of [to_serializable], one per branch of the source. *)
Lemma to_serializable_at_dict depth kvs :
  forallb (fun kv => is_str (fst kv)) kvs = true ->
  to_serializable_at H depth (VDict kvs) =
    match dict_comprehension
            (fun v => match depth with
                      | S depth => to_serializable_at H depth v
                      | 0 => Raise RecursionError
                      end) kvs with
    | Raise e => Raise e
    | Ok kvs' => Ok (VDict kvs')
    end.
Proof.
  intros Hk. destruct depth; cbn [to_serializable_at]; rewrite Hk; reflexivity.
Qed.

(** On a mapping that holds itself every level of the recursion calls the
    next, until the interpreter refuses. *)
Lemma to_serializable_at_self depth k :
  to_serializable_at H depth (VSelfDict k) = Raise RecursionError.
Proof.
  induction depth as [|depth IH]; [reflexivity|].
  cbn [to_serializable_at dict_comprehension snd]. rewrite IH. reflexivity.
Qed.

Lemma to_serializable_at_proxy depth p :
  to_serializable_at H depth (VGeneratorProxy p) = Ok (VGeneratorProxy p).
Proof. destruct depth; reflexivity. Qed.

Lemma to_serializable_at_other depth obj :
  is_str_keyed_dict obj = false -> is_generator_proxy obj = false ->
  to_serializable_at H depth obj = try_serialize H obj.
Proof.
  destruct depth, obj; cbn [is_str_keyed_dict is_generator_proxy to_serializable_at];
    try reflexivity; try discriminate; intros ->; reflexivity.
Qed.

Lemma to_serializable_proxy p :
  to_serializable H (VGeneratorProxy p) = Ok (VGeneratorProxy p).
Proof. apply to_serializable_at_proxy. Qed.

Lemma to_serializable_other obj :
  is_str_keyed_dict obj = false -> is_generator_proxy obj = false ->
  to_serializable H obj = try_serialize H obj.
Proof. apply to_serializable_at_other. Qed.

(** The handler is the only place where the [try] block can raise. *)
Lemma try_serialize_handled obj :
  try_serialize H obj =
    match serialize H obj with
    | Raise _ => str_value H obj
    | Ok s => match json_dumps H s with
              | Raise _ => str_value H s
              | Ok _ => Ok s
              end
    end.
Proof. reflexivity. Qed.

Lemma try_serialize_raises obj e :
  try_serialize H obj = Raise e -> exists x, py_str H x = Raise e.
Proof.
  unfold try_serialize, str_value.
  destruct (serialize H obj) as [s|_].
  - destruct (json_dumps H s); [discriminate|].
    destruct (py_str H s) eqn:Hs; [discriminate|]. intros [= <-]. eauto.
  - destruct (py_str H obj) eqn:Hs; [discriminate|]. intros [= <-]. eauto.
Qed.

Lemma dict_comprehension_returns (f : pyval -> result pyval) kvs :
  Forall (fun kv => exists r, f (snd kv) = Ok r) kvs ->
  exists kvs', dict_comprehension f kvs = Ok kvs'
               /\ map fst kvs' = map fst kvs
               /\ Forall2 (fun kv kv' => f (snd kv) = Ok (snd kv')) kvs kvs'.
Proof.
  induction 1 as [|kv rest [r Hr] _ (rest' & IH & Hkeys & Hvals)].
  - exists []. cbn. auto.
  - exists ((fst kv, r) :: rest'). cbn [dict_comprehension].
    rewrite Hr, IH. cbn. rewrite Hkeys. auto.
Qed.

Lemma dict_comprehension_Ok (f : pyval -> result pyval) kvs kvs' :
  dict_comprehension f kvs = Ok kvs' ->
  map fst kvs' = map fst kvs /\
  Forall2 (fun kv kv' => f (snd kv) = Ok (snd kv')) kvs kvs'.
Proof.
  revert kvs'. induction kvs as [|kv rest IH]; intros kvs'; cbn [dict_comprehension].
  - intros [= <-]. split; [reflexivity|constructor].
  - destruct (f (snd kv)) as [v'|] eqn:Hv; [|discriminate].
    destruct (dict_comprehension f rest) as [rest'|]; [|discriminate].
    intros [= <-]. destruct (IH rest' eq_refl) as [Hkeys Hvals].
    cbn. rewrite Hkeys. split; [reflexivity|]. constructor; [exact Hv|exact Hvals].
Qed.

Lemma dict_comprehension_Raise (f : pyval -> result pyval) kvs e :
  dict_comprehension f kvs = Raise e ->
  exists kv, kv ∈ kvs /\ f (snd kv) = Raise e.
Proof.
  induction kvs as [|kv rest IH]; cbn [dict_comprehension]; [discriminate|].
  destruct (f (snd kv)) as [v'|e'] eqn:Hv.
  - destruct (dict_comprehension f rest) as [rest'|e']; [discriminate|].
    intros [= <-]. destruct (IH eq_refl) as (kv' & Hin & Hkv').
    exists kv'. split; [apply list_elem_of_further; exact Hin|exact Hkv'].
  - intros [= <-]. exists kv. split; [apply list_elem_of_here|exact Hv].
Qed.

Lemma holds_itself_dict kvs :
  forallb (fun kv => is_str (fst kv)) kvs = true ->
  forall kv, kv ∈ kvs -> holds_itself (snd kv) = true -> holds_itself (VDict kvs) = true.
Proof.
  intros Hk kv Hin Hkv. cbn [holds_itself]. rewrite Hk. cbn [andb]. clear Hk.
  induction Hin as [kv rest|kv kv' rest _ IH].
  - rewrite Hkv. reflexivity.
  - rewrite IH by exact Hkv. apply orb_true_r.
Qed.

Lemma nesting_dict kvs :
  forallb (fun kv => is_str (fst kv)) kvs = true ->
  forall kv, kv ∈ kvs -> S (nesting (snd kv)) <= nesting (VDict kvs).
Proof.
  intros Hk kv Hin. cbn [nesting]. rewrite Hk. clear Hk.
  induction Hin as [kv rest|kv kv' rest _ IH]; lia.
Qed.

(** An exception that leaves the normalizer is the [RecursionError] of a
    nesting that is too deep or has no end, or was raised by [str]. *)
Lemma to_serializable_at_raises depth : forall obj e,
  to_serializable_at H depth obj = Raise e ->
  (e = RecursionError /\ (holds_itself obj = true \/ depth < nesting obj)) \/
  exists x, py_str H x = Raise e.
Proof.
  assert (Hflat : forall depth obj e,
            is_str_keyed_dict obj = false ->
            to_serializable_at H depth obj = Raise e ->
            exists x, py_str H x = Raise e).
  { intros d obj e Hd Hraise. destruct (is_generator_proxy obj) eqn:Hp.
    - destruct obj; try discriminate. rewrite to_serializable_at_proxy in Hraise.
      discriminate.
    - rewrite (to_serializable_at_other _ _ Hd Hp) in Hraise.
      exact (try_serialize_raises _ _ Hraise). }
  induction depth as [|depth IH]; intros obj e Hraise.
  - destruct (is_str_keyed_dict obj) eqn:Hd; [|right; exact (Hflat _ _ _ Hd Hraise)].
    destruct obj; try discriminate.
    + cbn [is_str_keyed_dict] in Hd.
      rewrite (to_serializable_at_dict _ _ Hd) in Hraise.
      destruct (dict_comprehension _ kvs) as [|e'] eqn:Hc; [discriminate|].
      injection Hraise as ->.
      apply dict_comprehension_Raise in Hc as (kv & Hin & [= <-]).
      left. split; [reflexivity|]. right.
      pose proof (nesting_dict kvs Hd kv Hin). lia.
    + rewrite to_serializable_at_self in Hraise. injection Hraise as <-.
      left. split; [reflexivity|]. left. reflexivity.
  - destruct (is_str_keyed_dict obj) eqn:Hd; [|right; exact (Hflat _ _ _ Hd Hraise)].
    destruct obj; try discriminate.
    + cbn [is_str_keyed_dict] in Hd.
      rewrite (to_serializable_at_dict _ _ Hd) in Hraise.
      destruct (dict_comprehension _ kvs) as [|e'] eqn:Hc; [discriminate|].
      injection Hraise as ->.
      apply dict_comprehension_Raise in Hc as (kv & Hin & Hkv).
      destruct (IH _ _ Hkv) as [[-> Hdeep]|Hstr]; [|right; exact Hstr].
      left. split; [reflexivity|].
      destruct Hdeep as [Hself|Hdeep].
      * left. exact (holds_itself_dict kvs Hd kv Hin Hself).
      * right. pose proof (nesting_dict kvs Hd kv Hin). lia.
    + rewrite to_serializable_at_self in Hraise. injection Hraise as <-.
      left. split; [reflexivity|]. left. reflexivity.
Qed.

(** Whatever the limit, a finite nesting exceeds it. *)
Lemma to_serializable_at_too_deep depth :
  to_serializable_at H depth (nest (S depth)) = Raise RecursionError.
Proof.
  induction depth as [|depth IH].
  - reflexivity.
  - change (nest (S (S depth))) with (VDict [(VStr "a", nest (S depth))]).
    rewrite to_serializable_at_dict by reflexivity.
    cbn [dict_comprehension snd]. rewrite IH. reflexivity.
Qed.

Lemma to_serializable_too_deep :
  to_serializable H (nest (S (recursion_limit H))) = Raise RecursionError.
Proof. apply to_serializable_at_too_deep. Qed.

End NormalizerFacts.

(** *** What the normalizer returns, branch by branch *)




(** C7, as the code has it.  When the value is neither a string-keyed
    mapping nor a proxy, its structured serialization fails and [str]
    returns on the object the handler converts, the result is that string,
    and normalizing the string again returns it unchanged, provided the
    helpers treat strings as the real ones do: a string is its own
    structured form and always encodes.  When [str] raises instead, so does
    the normalizer. *)
Theorem to_serializable_fallback_idempotent (H : Helpers) (v : pyval) :
  (forall s, serialize H (VStr s) = Ok (VStr s)) ->
  (forall s, exists j, json_dumps H (VStr s) = Ok j) ->
  is_str_keyed_dict v = false ->
  is_generator_proxy v = false ->
  fails_structured_serialization H v ->
  (forall s, py_str H (handled H v) = Ok s ->
     to_serializable H v = Ok (VStr s) /\
     to_serializable H (VStr s) = Ok (VStr s)) /\
  (forall e, py_str H (handled H v) = Raise e -> to_serializable H v = Raise e).
Proof.
  intros Hser Henc Hd Hp Hfail.
  assert (Hidem : forall s, to_serializable H (VStr s) = Ok (VStr s)).
  { intros s. rewrite to_serializable_other by reflexivity. unfold try_serialize.
    rewrite Hser. destruct (Henc s) as [j ->]. reflexivity. }
  rewrite (to_serializable_other _ _ Hd Hp). unfold try_serialize, handled, str_value.
  destruct Hfail as [[e ->] | (s & e & -> & ->)];
    (split; [intros s' ->; auto | intros e' ->; reflexivity]).
Qed.

Lemma to_serializable_fallback_idempotent_witness :
  to_serializable example_helpers (VObject 0) = Ok (VStr "<object>")
  /\ to_serializable example_helpers (VStr "<object>") = Ok (VStr "<object>").
Proof.
  apply (to_serializable_fallback_idempotent example_helpers (VObject 0)).
  - intros s. reflexivity.
  - intros s. exists "<json>". reflexivity.
  - reflexivity.
  - reflexivity.
  - left. eexists. reflexivity.
  - reflexivity.
Defined.

(** C7 as the specification words it does not hold.  The mapping
    [{"x": obj}] fails structured serialization (its structured form does
    not encode) and comes back as a mapping, not as a string; the object
    [VObject 5] fails structured serialization and the normalizer raises
    on it. *)
Lemma to_serializable_fallback_counterexample :
  fails_structured_serialization example_helpers (VDict [(VStr "x", VObject 0)]) /\
  to_serializable example_helpers (VDict [(VStr "x", VObject 0)])
  = Ok (VDict [(VStr "x", VStr "<object>")]) /\
  fails_structured_serialization example_helpers (VObject 5) /\
  to_serializable example_helpers (VObject 5)
  = Raise (mkPyError "RuntimeError" "__str__ failed").
Proof.
  split; [right; eexists _, _; split; reflexivity|].
  split; [reflexivity|].
  split; [left; eexists; reflexivity|reflexivity].
Qed.

(** ** Running the recorder's operations *)

Lemma bind_ok {A B} (m : M A) (f : A -> M B) w a w' :
  m w = (Ok a, w') -> bind m f w = f a w'.
Proof. unfold bind. intros ->. reflexivity. Qed.

Lemma bind_raise {A B} (m : M A) (f : A -> M B) w e w' :
  m w = (Raise e, w') -> bind m f w = (Raise e, w').
Proof. unfold bind. intros ->. reflexivity. Qed.

Lemma get_trace_ok w l t :
  traces w !! l = Some t -> get_trace l w = (Ok t, w).
Proof. unfold get_trace. intros ->. reflexivity. Qed.

Lemma modify_trace_ok w l t f :
  traces w !! l = Some t ->
  modify_trace l f w = (Ok tt, set_traces (<[l := f t]> (traces w)) w).
Proof.
  intros Hl. unfold modify_trace. rewrite (bind_ok _ _ _ _ _ (get_trace_ok _ _ _ Hl)).
  reflexivity.
Qed.

Lemma id_truthy_push_id t :
  id_truthy (tr_id t) = true -> forall H w, tr_id t = Some (push_id H w t).
Proof.
  unfold id_truthy, push_id. destruct (tr_id t) as [i|]; [|discriminate].
  destruct (String.eqb i ""); [discriminate|reflexivity].
Qed.

Lemma id_falsy_push_id t :
  id_truthy (tr_id t) = false -> forall H w, push_id H w t = uuid4 H (uuids w).
Proof.
  unfold id_truthy, push_id. destruct (tr_id t) as [i|]; [|reflexivity].
  destruct (String.eqb i ""); [reflexivity|discriminate].
Qed.

Lemma bind_assoc {A B C} (m : M A) (f : A -> M B) (g : B -> M C) w :
  bind (bind m f) g w = bind m (fun a => bind (f a) g) w.
Proof. unfold bind. destruct (m w) as [[a|e] w']; reflexivity. Qed.

Lemma bind_ret {A B} (a : A) (f : A -> M B) w : bind (ret a) f w = f a w.
Proof. reflexivity. Qed.

Lemma bind_lift_ok {A B} (a : A) (f : A -> M B) w : bind (lift (Ok a)) f w = f a w.
Proof. reflexivity. Qed.

Lemma traces_set_traces h w : traces (set_traces h w) = h.
Proof. reflexivity. Qed.

(** Symbolic execution of monadic code: flatten nested binds, then run the
    leading primitive; a lookup in the store is settled from the hypotheses. *)
Ltac heap_lookup :=
  cbn [traces set_traces proxies context_var warnings uuids clock];
  repeat first [rewrite lookup_insert_eq | rewrite lookup_insert_ne by congruence];
  first [reflexivity | eassumption].

Ltac mstep :=
  first
    [ rewrite bind_assoc
    | rewrite bind_ret
    | rewrite bind_lift_ok
    | match goal with
      | |- context [bind (get_trace ?l) ?f ?w] =>
          erewrite (bind_ok (get_trace l) f w) by (apply get_trace_ok; heap_lookup)
      | |- context [bind (modify_trace ?l ?g) ?f ?w] =>
          erewrite (bind_ok (modify_trace l g) f w) by (apply modify_trace_ok; heap_lookup)
      | |- context [bind ?m ?f ?w] =>
          erewrite (bind_ok m f w) by reflexivity
      end ];
  cbv beta.

Ltac mrun := repeat mstep.

Section TracerSteps.
Context (H : Helpers).

Lemma _get_current_trace_none self w :
  id_truthy (_current_trace_id self) = false ->
  _get_current_trace self w = (Ok None, w).
Proof. unfold _get_current_trace. intros ->. reflexivity. Qed.

Lemma _get_current_trace_some self w i l :
  _current_trace_id self = Some i -> i <> "" ->
  _id_to_trace self !! i = Some l ->
  _get_current_trace self w = (Ok (Some l), w).
Proof.
  unfold _get_current_trace. intros -> Hi ->. cbn.
  destruct (String.eqb_spec i ""); [contradiction|reflexivity].
Qed.

Lemma _get_current_trace_key_error self w i :
  _current_trace_id self = Some i -> i <> "" ->
  _id_to_trace self !! i = None ->
  _get_current_trace self w = (Raise (KeyError i), w).
Proof.
  unfold _get_current_trace. intros -> Hi ->. cbn.
  destruct (String.eqb_spec i ""); [contradiction|reflexivity].
Qed.

Lemma _push_root self trace w t :
  traces w !! trace = Some t ->
  id_truthy (_current_trace_id self) = false ->
  inputs_normalize H t = true ->
  _push H self trace w =
    (Ok (entered_tracer self (push_id H w t) trace (_traces self ++ [trace])),
     push_world w t (<[trace := set_node_name (_node_name self) (entered H w t)]> (traces w))).
Proof.
  intros Hl Hcur Hnorm. unfold _push.
  unfold entered, push_world, push_inputs, push_start_time, push_id, id_truthy.
  unfold inputs_normalize, returns in Hnorm.
  destruct (to_serializable H (tr_inputs t)) as [inputs|e] eqn:Hin.
  all: mstep.
  all: destruct (tr_id t) as [i|] eqn:Hid; [destruct (String.eqb i "") eqn:Hi|];
    destruct (truthy (tr_inputs t)) eqn:Htin;
    destruct (time_truthy (tr_start_time t)) eqn:Htst;
    cbn [when negb]; rewrite ?Hin; try discriminate Hnorm.
  all: mrun.
  all: rewrite (bind_ok _ _ _ _ _ (_get_current_trace_none _ _ Hcur)).
  all: mrun.
  all: unfold ret, set_traces, entered_tracer, set__traces, set_id_to_trace,
         set_current_trace_id; cbn.
  all: rewrite ?insert_insert_eq.
  all: destruct t; cbn in *; subst; reflexivity.
Qed.

Lemma _push_child self trace w t i parent tp :
  traces w !! trace = Some t ->
  _current_trace_id self = Some i -> i <> "" ->
  _id_to_trace self !! i = Some parent ->
  parent <> trace ->
  traces w !! parent = Some tp ->
  inputs_normalize H t = true ->
  _push H self trace w =
    (Ok (entered_tracer self (push_id H w t) trace (_traces self)),
     push_world w t
       (<[trace := set_parent_id (tr_id tp) (entered H w t)]>
          (<[parent := set_children (tr_children tp ++ [trace]) tp]> (traces w)))).
Proof.
  intros Hl Hcur Hi Hmap Hne Hp Hnorm. unfold _push.
  unfold entered, push_world, push_inputs, push_start_time, push_id, id_truthy.
  unfold inputs_normalize, returns in Hnorm.
  destruct (to_serializable H (tr_inputs t)) as [inputs|e] eqn:Hin.
  all: mstep.
  all: destruct (tr_id t) as [j|] eqn:Hid; [destruct (String.eqb j "") eqn:Hj|];
    destruct (truthy (tr_inputs t)) eqn:Htin;
    destruct (time_truthy (tr_start_time t)) eqn:Htst;
    cbn [when negb]; rewrite ?Hin; try discriminate Hnorm.
  all: mrun.
  all: rewrite (bind_ok _ _ _ _ _ (_get_current_trace_some _ _ _ _ Hcur Hi Hmap)).
  all: mrun.
  all: unfold ret, set_traces, entered_tracer, set__traces, set_id_to_trace,
         set_current_trace_id; cbn.
  all: rewrite ?insert_insert_eq.
  all: rewrite (insert_insert_ne _ parent trace) by congruence.
  all: rewrite ?insert_insert_eq.
  all: destruct t; cbn in *; subst; reflexivity.
Qed.

Lemma _push_key_error self trace w t i :
  traces w !! trace = Some t ->
  _current_trace_id self = Some i -> i <> "" ->
  _id_to_trace self !! i = None ->
  inputs_normalize H t = true ->
  exists w', _push H self trace w = (Raise (KeyError i), w').
Proof.
  intros Hl Hcur Hi Hmap Hnorm. unfold _push.
  unfold inputs_normalize, returns in Hnorm.
  destruct (to_serializable H (tr_inputs t)) as [inputs|e] eqn:Hin.
  all: mstep.
  all: destruct (tr_id t) as [j|] eqn:Hid; [destruct (String.eqb j "") eqn:Hj|];
    destruct (truthy (tr_inputs t)) eqn:Htin;
    destruct (time_truthy (tr_start_time t)) eqn:Htst;
    cbn [when negb]; rewrite ?Hin; try discriminate Hnorm.
  all: mrun.
  all: rewrite (bind_raise _ _ _ _ _ (_get_current_trace_key_error _ _ _ Hcur Hi Hmap)).
  all: eauto.
Qed.

Lemma _pop_no_trace self w output error :
  id_truthy (_current_trace_id self) = false ->
  _pop H self output error w =
    (Ok (output, self),
     mkWorld (traces w) (proxies w) (context_var w)
       (warnings w ++ ["Try to pop trace but no active trace in current context."])
       (uuids w) (clock w)).
Proof.
  intros Hcur. unfold _pop.
  rewrite (bind_ok _ _ _ _ _ (_get_current_trace_none _ _ Hcur)).
  reflexivity.
Qed.

Lemma _pop_trace self w output error i last_trace t :
  _current_trace_id self = Some i -> i <> "" ->
  _id_to_trace self !! i = Some last_trace ->
  traces w !! last_trace = Some t ->
  output_normalizes H output = true ->
  _pop H self output error w =
    (Ok (pop_result w output, set_current_trace_id (tr_parent_id t) self),
     pop_world w output (<[last_trace := exited H w t output error]> (traces w))).
Proof.
  intros Hcur Hi Hmap Hl Hnorm. unfold _pop.
  rewrite (bind_ok _ _ _ _ _ (_get_current_trace_some _ _ _ _ Hcur Hi Hmap)).
  unfold pop_result, pop_world, exited, pop_output.
  destruct (is_iterator output) eqn:Hit.
  - mstep. cbn [is_none negb when is_generator_proxy generate_from_proxy].
    rewrite !to_serializable_proxy.
    destruct error as [e|]; mrun; unfold ret, set_traces; cbn;
      rewrite ?insert_insert_eq; destruct t; reflexivity.
  - mstep.
    unfold output_normalizes, returns in Hnorm. rewrite Hit in Hnorm.
    destruct (to_serializable H output) as [o|e'] eqn:Ho;
      destruct (is_none output) eqn:Hn; cbn [negb when]; try discriminate Hnorm;
      destruct error as [e|]; rewrite ?Ho; mrun;
      destruct (is_generator_proxy output) eqn:Hgp;
      try (destruct output; discriminate);
      unfold ret, set_traces; cbn; rewrite ?insert_insert_eq;
      destruct t; reflexivity.
Qed.

(** When the normalizer raises on the inputs, [_push] raises the same
    exception; the object has its identifier by then and nothing else is
    changed. *)
Lemma _push_normalizer_raises self trace w t e :
  traces w !! trace = Some t ->
  truthy (tr_inputs t) = true ->
  to_serializable H (tr_inputs t) = Raise e ->
  exists w', _push H self trace w = (Raise e, w') /\
             context_var w' = context_var w /\
             (forall l, l <> trace -> traces w' !! l = traces w !! l) /\
             traces w' !! trace = Some (set_id (Some (push_id H w t)) t).
Proof.
  intros Hl Htin Hin. unfold _push, push_id.
  mstep.
  destruct (tr_id t) as [j|] eqn:Hid; [destruct (String.eqb j "") eqn:Hj|];
    rewrite Htin; cbn [when]; rewrite Hin; mrun.
  all: eexists; split; [reflexivity|]; cbn.
  all: split; [reflexivity|].
  all: split; [intros l Hne; rewrite ?lookup_insert_ne by congruence; reflexivity|].
  all: rewrite ?lookup_insert_eq; try reflexivity.
  rewrite Hl. destruct t; cbn in *; subst; reflexivity.
Qed.

(** When the normalizer raises on the output, [_pop] raises the same
    exception and changes nothing: the trace stays current and open. *)
Lemma _pop_normalizer_raises self w output error i last_trace e :
  _current_trace_id self = Some i -> i <> "" ->
  _id_to_trace self !! i = Some last_trace ->
  is_iterator output = false -> is_none output = false ->
  to_serializable H output = Raise e ->
  _pop H self output error w = (Raise e, w).
Proof.
  intros Hcur Hi Hmap Hit Hn Ho. unfold _pop.
  rewrite (bind_ok _ _ _ _ _ (_get_current_trace_some _ _ _ _ Hcur Hi Hmap)).
  rewrite Hit. mstep. rewrite Hn. cbn [negb when]. rewrite Ho. reflexivity.
Qed.

End TracerSteps.

(** ** Single calls of the recorder *)

Section TracerCalls.
Context (H : Helpers).

Lemma _get_current_trace_inv self w r w' :
  _get_current_trace self w = (Ok r, w') ->
  w' = w /\
  match r with
  | None => id_truthy (_current_trace_id self) = false
  | Some l => exists i, _current_trace_id self = Some i /\ i <> ""
                        /\ _id_to_trace self !! i = Some l
  end.
Proof.
  unfold _get_current_trace, id_truthy.
  destruct (_current_trace_id self) as [i|]; cbn.
  - destruct (String.eqb_spec i "") as [->|Hne]; cbn.
    + intros [= <- <-]. auto.
    + destruct (_id_to_trace self !! i) as [l|] eqn:Hl; cbn; [|discriminate].
      intros [= <- <-]. split; [reflexivity|]. exists i. auto.
  - intros [= <- <-]. auto.
Qed.

Lemma push_active self trace w r w' :
  context_var w = Some self ->
  _push H self trace w = (Ok r, w') ->
  push H trace w =
    (Ok tt, mkWorld (traces w') (proxies w') (Some r) (warnings w') (uuids w') (clock w')).
Proof.
  intros Hctx Hp. unfold push, active_instance.
  unfold bind at 1. rewrite Hctx.
  rewrite (bind_ok _ _ _ _ _ Hp). reflexivity.
Qed.

Lemma pop_active self output error w r w' :
  context_var w = Some self ->
  _pop H self output error w = (Ok r, w') ->
  pop H output error w =
    (Ok (fst r),
     mkWorld (traces w') (proxies w') (Some (snd r)) (warnings w') (uuids w') (clock w')).
Proof.
  intros Hctx Hp. unfold pop, active_instance.
  unfold bind at 1. rewrite Hctx.
  rewrite (bind_ok _ _ _ _ _ Hp). reflexivity.
Qed.

(** C9.  Without an active context [push] changes nothing.  With one, the
    pushed object gets an identifier if it had none (the next one drawn from
    [uuid4]), its inputs are normalized (when they are non-empty: empty
    inputs are left as they are), its start time is set if it was absent
    and its children are cleared.  When a trace is current the object is
    appended to that trace's children and takes its identifier as
    [parent_id]; otherwise it is appended to the root list and takes the
    context's node name.  Either way it is the current trace afterwards.
    The pushed object is a new one, not the trace that is current, the
    drawn identifier is not the empty string, and the normalizer returns on
    the inputs. *)
Theorem push_records_trace (w : World) (trace : loc) :
  (context_var w = None -> push H trace w = (Ok tt, w)) /\
  (forall self t parent_trace,
     context_var w = Some self ->
     traces w !! trace = Some t ->
     _get_current_trace self w = (Ok parent_trace, w) ->
     parent_trace <> Some trace ->
     (forall p, parent_trace = Some p -> is_Some (traces w !! p)) ->
     uuid4 H (uuids w) <> "" ->
     inputs_normalize H t = true ->
     exists w' self' t',
       push H trace w = (Ok tt, w') /\
       context_var w' = Some self' /\
       traces w' !! trace = Some t' /\
       (id_truthy (tr_id t) = true -> tr_id t' = tr_id t) /\
       (id_truthy (tr_id t) = false -> tr_id t' = Some (uuid4 H (uuids w))) /\
       (truthy (tr_inputs t) = true -> to_serializable H (tr_inputs t) = Ok (tr_inputs t')) /\
       (truthy (tr_inputs t) = false -> tr_inputs t' = tr_inputs t) /\
       (time_truthy (tr_start_time t) = true -> tr_start_time t' = tr_start_time t) /\
       (time_truthy (tr_start_time t) = false ->
          tr_start_time t' = Some (utcnow H (clock w))) /\
       tr_children t' = [] /\
       match parent_trace with
       | Some parent =>
           exists p p', traces w !! parent = Some p /\ traces w' !! parent = Some p' /\
                        tr_children p' = tr_children p ++ [trace] /\
                        tr_parent_id t' = tr_id p /\
                        _traces self' = _traces self
       | None =>
           _traces self' = _traces self ++ [trace] /\
           tr_node_name t' = _node_name self
       end /\
       _get_current_trace self' w' = (Ok (Some trace), w')).
Proof.
  split.
  { intros Hctx. unfold push, active_instance, bind. rewrite Hctx. reflexivity. }
  intros self t parent_trace Hctx Hl Hcur Hne Hheap Hu Hnorm.
  assert (Hid : push_id H w t <> "").
  { unfold push_id. destruct (tr_id t) as [i|]; [|exact Hu].
    destruct (String.eqb_spec i ""); [exact Hu|assumption]. }
  assert (Hfields :
    (id_truthy (tr_id t) = true -> Some (push_id H w t) = tr_id t) /\
    (id_truthy (tr_id t) = false -> Some (push_id H w t) = Some (uuid4 H (uuids w))) /\
    (truthy (tr_inputs t) = true -> to_serializable H (tr_inputs t) = Ok (push_inputs H t)) /\
    (truthy (tr_inputs t) = false -> push_inputs H t = tr_inputs t) /\
    (time_truthy (tr_start_time t) = true -> push_start_time H w t = tr_start_time t) /\
    (time_truthy (tr_start_time t) = false ->
       push_start_time H w t = Some (utcnow H (clock w)))).
  { repeat split.
    - intros Ht. symmetry. apply id_truthy_push_id. exact Ht.
    - intros Ht. f_equal. apply id_falsy_push_id. exact Ht.
    - intros Ht. unfold push_inputs. rewrite Ht.
      unfold inputs_normalize, returns in Hnorm. rewrite Ht in Hnorm.
      destruct (to_serializable H (tr_inputs t)); [reflexivity|discriminate Hnorm].
    - intros Ht. unfold push_inputs. rewrite Ht. reflexivity.
    - intros Ht. unfold push_start_time. rewrite Ht. reflexivity.
    - intros Ht. unfold push_start_time. rewrite Ht. reflexivity. }
  destruct Hfields as (F1 & F2 & F3 & F4 & F5 & F6).
  destruct (_get_current_trace_inv _ _ _ _ Hcur) as [_ Hcur'].
  destruct parent_trace as [parent|].
  - destruct Hcur' as (i & Hi & Hine & Hmap).
    assert (Hpt : parent <> trace) by congruence.
    destruct (Hheap parent eq_refl) as [p Hp].
    pose proof (_push_child H self trace w t i parent p Hl Hi Hine Hmap Hpt Hp Hnorm)
      as Hrun.
    rewrite (push_active _ _ _ _ _ Hctx Hrun).
    eexists _, _, _. split; [reflexivity|]. cbn.
    split; [reflexivity|].
    split; [apply lookup_insert_eq|]. cbn.
    repeat (split; [assumption || reflexivity|]).
    split.
    + exists p. eexists. split; [exact Hp|].
      split; [rewrite lookup_insert_ne by congruence; apply lookup_insert_eq|].
      cbn. auto.
    + apply _get_current_trace_some with (i := push_id H w t);
        [reflexivity | exact Hid | apply lookup_insert_eq].
  - pose proof (_push_root H self trace w t Hl Hcur' Hnorm) as Hrun.
    rewrite (push_active _ _ _ _ _ Hctx Hrun).
    eexists _, _, _. split; [reflexivity|]. cbn.
    split; [reflexivity|].
    split; [apply lookup_insert_eq|]. cbn.
    repeat (split; [assumption || reflexivity|]).
    split; [auto|].
    apply _get_current_trace_some with (i := push_id H w t);
      [reflexivity | exact Hid | apply lookup_insert_eq].
Qed.

(** *** Warnings do not influence the recorder *)

Ltac same_worlds :=
  unfold same_but_warnings in *; cbn in *; intuition congruence.

Lemma ignores_ret {A} (a : A) : ignores_warnings (ret a).
Proof. intros w1 w2 Hw. cbn. auto. Qed.

Lemma ignores_raise {A} e : ignores_warnings (@raise A e).
Proof. intros w1 w2 Hw. cbn. auto. Qed.

Lemma ignores_lift {A} (r : result A) : ignores_warnings (lift r).
Proof. intros w1 w2 Hw. cbn. auto. Qed.

Lemma ignores_bind {A B} (m : M A) (f : A -> M B) :
  ignores_warnings m -> (forall a, ignores_warnings (f a)) ->
  ignores_warnings (bind m f).
Proof.
  intros Hm Hf w1 w2 Hw. unfold bind.
  destruct (Hm w1 w2 Hw) as [Hr Hw'].
  destruct (m w1) as [[a|e] w1'], (m w2) as [[a2|e2] w2']; cbn in *;
    try discriminate; injection Hr as <-; auto.
  apply Hf. exact Hw'.
Qed.

Lemma ignores_get_trace l : ignores_warnings (get_trace l).
Proof.
  intros w1 w2 Hw. unfold get_trace. pose proof Hw as (Ht & _). rewrite Ht.
  destruct (traces w2 !! l); cbn; auto.
Qed.

Lemma ignores_modify_trace l f : ignores_warnings (modify_trace l f).
Proof.
  unfold modify_trace. apply ignores_bind; [apply ignores_get_trace|].
  intros t w1 w2 Hw. same_worlds.
Qed.

Lemma ignores_logging_warning msg : ignores_warnings (logging_warning msg).
Proof. intros w1 w2 Hw. same_worlds. Qed.

Lemma ignores_new_uuid : ignores_warnings (new_uuid H).
Proof. intros w1 w2 Hw. same_worlds. Qed.

Lemma ignores_utcnow_timestamp : ignores_warnings (utcnow_timestamp H).
Proof. intros w1 w2 Hw. same_worlds. Qed.

Lemma ignores_new_GeneratorProxy g : ignores_warnings (new_GeneratorProxy g).
Proof. intros w1 w2 Hw. same_worlds. Qed.

Lemma ignores_active_instance : ignores_warnings active_instance.
Proof. intros w1 w2 Hw. same_worlds. Qed.

Lemma ignores_set_context_var o : ignores_warnings (set_context_var o).
Proof. intros w1 w2 Hw. same_worlds. Qed.

Lemma ignores_when b m : ignores_warnings m -> ignores_warnings (when b m).
Proof. destruct b; cbn; [auto|intros _; apply ignores_ret]. Qed.

Lemma ignores__get_current_trace self : ignores_warnings (_get_current_trace self).
Proof.
  unfold _get_current_trace.
  destruct (negb (id_truthy (_current_trace_id self))); [apply ignores_ret|].
  destruct (_current_trace_id self) as [i|]; [|apply ignores_ret].
  destruct (_id_to_trace self !! i); [apply ignores_ret|apply ignores_raise].
Qed.

Ltac ignores :=
  repeat first
    [ apply ignores_ret | apply ignores_raise | apply ignores_lift
    | apply ignores_get_trace | apply ignores_modify_trace
    | apply ignores_logging_warning | apply ignores_new_uuid
    | apply ignores_utcnow_timestamp | apply ignores_new_GeneratorProxy
    | apply ignores_active_instance | apply ignores_set_context_var
    | apply ignores__get_current_trace
    | apply ignores_when
    | apply ignores_bind; [|intros ?]
    | progress cbv zeta
    | match goal with
      | |- ignores_warnings (match ?x with _ => _ end) => destruct x
      | |- ignores_warnings (if ?x then _ else _) => destruct x
      end ].

Lemma ignores__push self trace : ignores_warnings (_push H self trace).
Proof. unfold _push. ignores. Qed.

Lemma ignores__pop self output error : ignores_warnings (_pop H self output error).
Proof. unfold _pop. ignores. Qed.

Lemma ignores_push trace : ignores_warnings (push H trace).
Proof. unfold push. ignores; try apply ignores__push. Qed.

Lemma ignores_pop output error : ignores_warnings (pop H output error).
Proof. unfold pop. ignores; try apply ignores__pop. Qed.

Lemma ignores_step o : ignores_warnings (step H o).
Proof. destruct o; cbn [step]; [apply ignores_push|]. ignores; try apply ignores_pop. Qed.

Lemma ignores_run ops : ignores_warnings (run H ops).
Proof.
  induction ops as [|o ops IH]; cbn [run]; [apply ignores_ret|].
  apply ignores_bind; [apply ignores_step|intros _; exact IH].
Qed.

Lemma ignores_end_tracing fuel run_id : ignores_warnings (end_tracing fuel run_id).
Proof.
  unfold end_tracing, _deactivate_in_context. ignores.
  all: intros w1 w2 Hw; unfold to_json; same_worlds.
Qed.

End TracerCalls.

(** C5, as the code has it.  [start_tracing] while a context with a run id
    is active returns without raising, logs one warning and changes nothing
    else: the context bound before is the context bound afterwards, with its
    run id.  Every later sequence of pushes and pops, and the tree read back
    at the end, are what they would have been without the second start; the
    worlds differ in the warnings only. *)
Theorem start_tracing_while_active (H : Helpers) (w : World) (self : Tracer)
    (current : string) (run_id node_name : option string) :
  context_var w = Some self ->
  _run_id self = Some current ->
  exists msg,
    start_tracing run_id node_name w = (Ok tt, warned msg w) /\
    context_var (warned msg w) = Some self /\
    current_run_id (warned msg w) = (Ok (Some current), warned msg w) /\
    forall ops fuel rid,
      let after := run H ops (warned msg w) in
      let plain := run H ops w in
      fst after = fst plain /\
      same_but_warnings (snd after) (snd plain) /\
      fst (end_tracing fuel rid (snd after)) = fst (end_tracing fuel rid (snd plain)).
Proof.
  intros Hctx Hid.
  exists ("Try to start tracing for run " ++ run_id_text run_id ++ " but "
            ++ current ++ " is already active.")%string.
  set (msg := ("Try to start tracing for run " ++ run_id_text run_id ++ " but "
                ++ current ++ " is already active.")%string).
  split.
  { unfold start_tracing, current_run_id, active_instance, bind. rewrite Hctx.
    cbn. rewrite Hid. reflexivity. }
  split; [exact Hctx|].
  split.
  { unfold current_run_id, active_instance, bind. cbn. rewrite Hctx. cbn.
    rewrite Hid. reflexivity. }
  intros ops fuel rid after plain.
  assert (Hsame : same_but_warnings (warned msg w) w).
  { unfold same_but_warnings. cbn. repeat split. }
  destruct (ignores_run H ops _ _ Hsame) as [Hr Hw].
  split; [exact Hr|]. split; [exact Hw|].
  apply (ignores_end_tracing fuel rid _ _ Hw).
Qed.

Lemma start_tracing_while_active_witness :
  exists msg,
    start_tracing (Some "run-2") None example_started
    = (Ok tt, warned msg example_started).
Proof.
  destruct (start_tracing_while_active example_helpers example_started
              (Tracer_init (Some "run-1") (Some "node")) "run-1" (Some "run-2") None
              eq_refl eq_refl)
    as (msg & Hstart & _).
  exists msg. exact Hstart.
Defined.

(** C5 as the specification words it does not hold.  The guard of
    [start_tracing] asks whether the run id of the active context is [None],
    not whether a context is active.  On a context started with run id
    [None], which holds the root trace pushed since, [current_run_id]
    answers [None] and a second start takes the other branch: no warning is
    logged, and a new recorder is made and handed to
    [_activate_in_context], which raises because a recorder is bound.  The
    exception reaches the caller of [start_tracing]. *)
Lemma start_tracing_unnamed_run_counterexample :
  context_var unnamed_started
  = Some (entered_tracer (Tracer_init None (Some "node")) "uuid-0" 0 [0]) /\
  current_run_id unnamed_started = (Ok None, unnamed_started) /\
  start_tracing (Some "run-2") None unnamed_started
  = _activate_in_context (Tracer_init (Some "run-2") None) unnamed_started /\
  start_tracing (Some "run-2") None unnamed_started
  = (Raise (mkPyError "NotImplementedError"
              "Cannot set active since there is another active instance"),
     unnamed_started) /\
  warnings (snd (start_tracing (Some "run-2") None unnamed_started)) = [].
Proof. repeat split. Qed.

Lemma end_tracing_active fuel w self :
  context_var w = Some self ->
  end_tracing fuel None w
  = (result_mapM (serialize_trace fuel (traces w)) (_traces self), detached w).
Proof.
  intros Hctx. unfold end_tracing, active_instance, bind. rewrite Hctx. reflexivity.
Qed.

(** C4.  Without an active context [end_tracing] returns the empty list.
    With a run id that is not the active context's it returns the empty list
    and leaves the world as it is, so that a later call without an id reads
    the tree back.  Otherwise the context is detached and the result is the
    structured form of the root traces. *)
Theorem end_tracing_cases (fuel : nat) (w : World) :
  (context_var w = None -> forall run_id, end_tracing fuel run_id w = (Ok [], w)) /\
  (forall self r,
     context_var w = Some self -> Some r <> _run_id self ->
     end_tracing fuel (Some r) w = (Ok [], w) /\
     end_tracing fuel None (snd (end_tracing fuel (Some r) w))
       = (result_mapM (serialize_trace fuel (traces w)) (_traces self), detached w)) /\
  (forall self run_id,
     context_var w = Some self ->
     run_id = None \/ run_id = _run_id self ->
     end_tracing fuel run_id w
       = (result_mapM (serialize_trace fuel (traces w)) (_traces self), detached w) /\
     current_run_id (detached w) = (Ok None, detached w)).
Proof.
  pose proof (end_tracing_active fuel w) as Hend.
  split.
  { intros Hctx run_id. unfold end_tracing, active_instance, bind. rewrite Hctx.
    reflexivity. }
  split.
  { intros self r Hctx Hne.
    assert (Hfirst : end_tracing fuel (Some r) w = (Ok [], w)).
    { unfold end_tracing, active_instance, bind. rewrite Hctx.
      rewrite bool_decide_eq_false_2 by congruence. reflexivity. }
    split; [exact Hfirst|]. rewrite Hfirst. cbn [snd]. apply Hend. exact Hctx. }
  intros self run_id Hctx Hid. split; [|reflexivity].
  destruct Hid as [->| ->]; [apply Hend; exact Hctx|].
  unfold end_tracing, active_instance, bind. rewrite Hctx.
  destruct (_run_id self) as [r|]; [|reflexivity].
  rewrite bool_decide_eq_true_2 by reflexivity. reflexivity.
Qed.

Lemma end_tracing_cases_witness :
  end_tracing 5 (Some "other-run") example_started = (Ok [], example_started).
Proof.
  destruct (end_tracing_cases 5 example_started) as (_ & Hmismatch & _).
  apply (Hmismatch (Tracer_init (Some "run-1") (Some "node")) "other-run").
  - reflexivity.
  - discriminate.
Defined.



(** ** Call trees *)

Lemma fmap_id_on {A} (f : A -> A) (l : list A) :
  (forall x, x ∈ l -> f x = x) -> f <$> l = l.
Proof.
  induction l as [|x l IH]; intros Hf; [reflexivity|].
  cbn. rewrite Hf by apply list_elem_of_here.
  f_equal. apply IH. intros y Hy. apply Hf. apply list_elem_of_further. exact Hy.
Qed.

Lemma root_graft p l s : root (graft p l s) = root s.
Proof. destruct s. reflexivity. Qed.

Lemma root_graft_forest p l (f : list shape) : root <$> (graft p l <$> f) = root <$> f.
Proof.
  induction f as [|s f IH]; [reflexivity|].
  cbn. rewrite root_graft. f_equal. exact IH.
Qed.

Lemma graft_absent p l s : p ∉ locs s -> graft p l s = s.
Proof.
  induction s as [q cs IH] using shape_nested_ind.
  cbn [locs graft]. intros Hnotin.
  apply not_elem_of_cons in Hnotin as [Hne Hcs].
  destruct (decide (q = p)) as [Heq|_]; [congruence|].
  f_equal. apply fmap_id_on. intros c Hc.
  rewrite Forall_forall in IH. apply IH; [exact Hc|].
  intros Hp. apply Hcs. apply list_elem_of_bind. exists c. auto.
Qed.

Lemma graft_absent_forest p l (f : list shape) :
  p ∉ f ≫= locs -> graft p l <$> f = f.
Proof.
  intros Hnotin. apply fmap_id_on. intros c Hc. apply graft_absent.
  intros Hp. apply Hnotin. apply list_elem_of_bind. exists c. auto.
Qed.

Lemma graft_present_forest p l (f : list shape) :
  Forall (fun s => NoDup (locs s) -> p ∈ locs s ->
                   size (graft p l s) = S (size s) /\
                   locs (graft p l s) ≡ₚ l :: locs s) f ->
  NoDup (f ≫= locs) -> p ∈ f ≫= locs ->
  sum_list_with size (graft p l <$> f) = S (sum_list_with size f) /\
  (graft p l <$> f) ≫= locs ≡ₚ l :: (f ≫= locs).
Proof.
  induction 1 as [|s f Hs _ IH]; intros Hnd Hin.
  - cbn in Hin. inversion Hin.
  - rewrite bind_cons in Hnd, Hin.
    apply NoDup_app in Hnd as (Hnds & Hdisj & Hndf).
    rewrite fmap_cons, bind_cons. cbn [sum_list_with].
    apply elem_of_app in Hin as [Hin|Hin].
    + destruct (Hs Hnds Hin) as [Hsize Hlocs].
      rewrite (graft_absent_forest p l f) by (apply Hdisj; exact Hin).
      rewrite Hsize, Hlocs, bind_cons. split; [lia|reflexivity].
    + assert (Hnot : p ∉ locs s).
      { intros Hp. exact (Hdisj p Hp Hin). }
      rewrite (graft_absent p l s Hnot).
      destruct (IH Hndf Hin) as [Hsize Hlocs].
      rewrite Hsize, Hlocs, bind_cons. split; [lia|].
      symmetry. apply Permutation_middle.
Qed.

Lemma graft_present p l s :
  NoDup (locs s) -> p ∈ locs s ->
  size (graft p l s) = S (size s) /\ locs (graft p l s) ≡ₚ l :: locs s.
Proof.
  induction s as [q cs IH] using shape_nested_ind.
  cbn [locs graft size]. intros Hnd Hin.
  apply NoDup_cons in Hnd as [Hq Hnd].
  destruct (decide (q = p)) as [->|Hne].
  - rewrite (graft_absent_forest p l cs Hq).
    rewrite sum_list_with_app, bind_app. cbn.
    split; [lia|].
    rewrite <- Permutation_cons_append. apply perm_swap.
  - apply elem_of_cons in Hin as [Hin|Hin]; [congruence|].
    destruct (graft_present_forest p l cs IH Hnd Hin) as [Hsize Hlocs].
    rewrite Hsize, Hlocs. split; [lia|]. apply perm_swap.
Qed.

Lemma Rep_frame L L' s :
  Rep L s -> (forall q, q ∈ locs s -> L' !! q = L !! q) -> Rep L' s.
Proof.
  induction s as [q cs IH] using shape_nested_ind.
  intros HRep Hsame. inversion HRep as [q' k cs' Hq Hk Hcs]; subst.
  apply Rep_node with (k := k).
  - rewrite Hsame; [exact Hq|]. cbn. apply list_elem_of_here.
  - exact Hk.
  - rewrite Forall_forall in *. intros c Hc.
    apply IH; [exact Hc|apply Hcs; exact Hc|].
    intros r Hr. apply Hsame. cbn. apply list_elem_of_further.
    apply list_elem_of_bind. exists c. auto.
Qed.

Lemma Rep_graft L p kp l kl s :
  L !! p = Some kp -> p <> l -> l ∉ locs s -> lk_children kl = [] ->
  Rep L s ->
  Rep (<[l := kl]>
         (<[p := mkLink (lk_id kp) (lk_parent kp) (lk_children kp ++ [l])]> L))
      (graft p l s).
Proof.
  intros Hp Hpl Hl Hkl.
  induction s as [q cs IH] using shape_nested_ind.
  intros HRep. inversion HRep as [q' k cs' Hq Hk Hcs]; subst.
  cbn [locs] in Hl. apply not_elem_of_cons in Hl as [Hlq Hlcs].
  assert (Hkids : Forall (Rep (<[l := kl]>
                    (<[p := mkLink (lk_id kp) (lk_parent kp) (lk_children kp ++ [l])]> L)))
                    (graft p l <$> cs)).
  { apply Forall_fmap. rewrite Forall_forall in *. intros c Hc. cbn.
    apply IH; [exact Hc| |apply Hcs; exact Hc].
    intros Hlc. apply Hlcs. apply list_elem_of_bind. exists c. auto. }
  cbn [graft]. destruct (decide (q = p)) as [->|Hne].
  - rewrite Hp in Hq. injection Hq as <-.
    eapply Rep_node.
    + rewrite lookup_insert_ne by congruence. apply lookup_insert_eq.
    + cbn. rewrite fmap_app, root_graft_forest, Hk. reflexivity.
    + apply Forall_app. split; [exact Hkids|].
      apply Forall_singleton. eapply Rep_node; [apply lookup_insert_eq|exact Hkl|].
      apply Forall_nil_2.
  - eapply Rep_node.
    + rewrite lookup_insert_ne by congruence.
      rewrite lookup_insert_ne by congruence. exact Hq.
    + rewrite root_graft_forest. exact Hk.
    + exact Hkids.
Qed.

Lemma in_call_order_node h order t cs :
  in_call_order h order (JTrace t cs) <->
  tr_children t `sublist_of` order /\
  Forall2 (fun l c => h !! l = Some (json_trace c)) (tr_children t) cs /\
  Forall (in_call_order h order) cs.
Proof.
  cbn [in_call_order].
  assert (Hall : forall cs,
    (fix all (cs : list TraceJson) : Prop :=
       match cs with
       | [] => True
       | c :: r => in_call_order h order c /\ all r
       end) cs <-> Forall (in_call_order h order) cs).
  { induction cs0 as [|c r IH]; [split; auto|].
    rewrite Forall_cons, IH. reflexivity. }
  rewrite Hall. reflexivity.
Qed.

(** With recursion depth at least the size of the tree, [serialize] returns
    the structured form of a tree the store holds. *)
Lemma Rep_serialize h order s :
  Rep (links <$> h) s ->
  (forall q t, q ∈ locs s -> h !! q = Some t -> tr_children t `sublist_of` order) ->
  forall fuel, size s <= fuel ->
  exists j, serialize_trace fuel h (root s) = Ok j /\
            h !! root s = Some (json_trace j) /\
            json_size j = size s /\
            in_call_order h order j.
Proof.
  induction s as [q cs IH] using shape_nested_ind.
  intros HRep Hord fuel Hfuel. inversion HRep as [q' k cs' Hq Hk Hcs]; subst.
  rewrite lookup_fmap in Hq. destruct (h !! q) as [t|] eqn:Ht; [|discriminate].
  cbn in Hq. injection Hq as <-. cbn [links lk_children] in Hk.
  cbn [size] in Hfuel. destruct fuel as [|fuel]; [lia|].
  assert (Hkids : exists js,
            result_mapM (serialize_trace fuel h) (root <$> cs) = Ok js /\
            Forall2 (fun l c => h !! l = Some (json_trace c)) (root <$> cs) js /\
            sum_list_with json_size js = sum_list_with size cs /\
            Forall (in_call_order h order) js).
  { assert (Hsz : forall c, c ∈ cs -> size c <= fuel).
    { intros c Hc. pose proof (sum_list_with_in c size cs Hc). lia. }
    assert (Hord' : forall c, c ∈ cs -> forall q t, q ∈ locs c -> h !! q = Some t ->
                      tr_children t `sublist_of` order).
    { intros c Hc r tr Hr. apply Hord. cbn. apply list_elem_of_further.
      apply list_elem_of_bind. exists c. auto. }
    clear Hk Hfuel HRep Hord.
    induction cs as [|c cs IHcs].
    - exists []. cbn. repeat split; constructor.
    - apply Forall_cons in IH as [IHc IHrest].
      apply Forall_cons in Hcs as [Hc Hcs].
      destruct (IHc Hc (Hord' c (list_elem_of_here _ _)) fuel
                  (Hsz c (list_elem_of_here _ _))) as (j & Hj & Hroot & Hsize & Hcall).
      destruct (IHcs IHrest Hcs) as (js & Hjs & Hroots & Hsizes & Hcalls).
      { intros c' Hc'. apply Hsz. apply list_elem_of_further. exact Hc'. }
      { intros c' Hc'. apply Hord'. apply list_elem_of_further. exact Hc'. }
      exists (j :: js). cbn [fmap list_fmap result_mapM sum_list_with].
      rewrite Hj, Hjs, Hsize, Hsizes.
      repeat split; [constructor; assumption|constructor; assumption]. }
  destruct Hkids as (js & Hjs & Hroots & Hsizes & Hcalls).
  exists (JTrace t js). cbn [serialize_trace root json_trace json_size size].
  rewrite Ht, Hk, Hjs, Hsizes.
  split; [reflexivity|]. split; [reflexivity|]. split; [reflexivity|].
  apply in_call_order_node. rewrite Hk.
  split; [|split; assumption].
  rewrite <- Hk. apply (Hord q t); [cbn; apply list_elem_of_here|exact Ht].
Qed.

(** ** The invariant of the recorder *)

Lemma inv_start L run_id node_name : recorder_inv L (Tracer_init run_id node_name) [].
Proof.
  split; cbn.
  - intros i l Hl. rewrite lookup_empty in Hl. discriminate.
  - intros l Hl. inversion Hl.
  - left. reflexivity.
  - exists []. split; [constructor|]. split; reflexivity.
  - constructor.
  - intros l k Hl. inversion Hl.
Qed.

Lemma inv_pop L self done i l k :
  recorder_inv L self done ->
  _id_to_trace self !! i = Some l -> L !! l = Some k ->
  recorder_inv L (set_current_trace_id (lk_parent k) self) done.
Proof.
  intros [Hkeys Hdone Hcur Hshape Hroots Hord] Hi Hl.
  split; cbn; try assumption.
  destruct (Hkeys i l Hi) as (_ & Hin & _).
  destruct (Hdone l Hin) as (k' & i' & Hl' & _ & _ & Hparent).
  rewrite Hl in Hl'. injection Hl' as <-.
  destruct Hparent as [[Hfalsy _] | (j & p & kp & Hj & Hp & _)].
  - left. exact Hfalsy.
  - right. exists j. split; [exact Hj|]. rewrite Hp. eauto.
Qed.

Lemma inv_push_root L self done l id pid :
  recorder_inv L self done ->
  l ∉ done ->
  _id_to_trace self !! id = None -> id <> "" ->
  id_truthy pid = false ->
  recorder_inv (<[l := mkLink (Some id) pid []]> L)
    (entered_tracer self id l (_traces self ++ [l])) (done ++ [l]).
Proof.
  intros [Hkeys Hdone Hcur Hshape Hroots Hord] Hl Hid Hne Hpid.
  assert (Hold : forall q, q ∈ done -> (<[l := mkLink (Some id) pid []]> L) !! q = L !! q).
  { intros q Hq. apply lookup_insert_ne. intros ->. contradiction. }
  assert (Hkey : forall j q, _id_to_trace self !! j = Some q ->
                   <[id := l]> (_id_to_trace self) !! j = Some q).
  { intros j q Hj. rewrite lookup_insert_ne; [exact Hj|]. intros ->. congruence. }
  split; cbn.
  - intros i q Hq. destruct (decide (i = id)) as [->|Hi].
    + rewrite lookup_insert_eq in Hq. injection Hq as <-.
      split; [exact Hne|]. split; [apply elem_of_app; right; apply list_elem_of_here|].
      eexists. split; [apply lookup_insert_eq|reflexivity].
    + rewrite lookup_insert_ne in Hq by congruence.
      destruct (Hkeys i q Hq) as (Hi' & Hin & k & Hk & Hkid).
      split; [exact Hi'|]. split; [apply elem_of_app; left; exact Hin|].
      exists k. rewrite Hold by exact Hin. auto.
  - intros q Hq. apply elem_of_app in Hq as [Hq|Hq].
    + destruct (Hdone q Hq) as (k & i & Hk & Hkid & Hi & Hparent).
      exists k, i. rewrite Hold by exact Hq.
      split; [exact Hk|]. split; [exact Hkid|]. split; [apply Hkey; exact Hi|].
      destruct Hparent as [[Hfalsy Hr] | (j & p & kp & Hj & Hp & Hkp & Hc)].
      * left. split; [exact Hfalsy|]. cbn. apply elem_of_app. left. exact Hr.
      * right. exists j, p, kp. cbn.
        split; [exact Hj|]. split; [apply Hkey; exact Hp|].
        split; [|exact Hc].
        rewrite Hold; [exact Hkp|]. apply (Hkeys j p Hp).
    + apply list_elem_of_singleton in Hq as ->.
      eexists _, id. split; [apply lookup_insert_eq|]. cbn.
      split; [reflexivity|]. split; [apply lookup_insert_eq|].
      left. split; [exact Hpid|]. apply elem_of_app. right. apply list_elem_of_here.
  - right. exists id. split; [reflexivity|]. rewrite lookup_insert_eq. eauto.
  - destruct Hshape as (forest & HRep & Hr & Hperm).
    exists (forest ++ [Sh l []]). split; [|split].
    + apply Forall_app. split.
      * rewrite Forall_forall in *. intros s Hs.
        apply Rep_frame with (L := L); [apply HRep; exact Hs|].
        intros q Hq. apply Hold. rewrite <- Hperm.
        apply list_elem_of_bind. exists s. auto.
      * apply Forall_singleton. eapply Rep_node; [apply lookup_insert_eq|reflexivity|].
        constructor.
    + rewrite fmap_app, Hr. reflexivity.
    + rewrite bind_app, Hperm. reflexivity.
  - apply sublist_app; [exact Hroots|reflexivity].
  - intros q k Hq Hk. apply elem_of_app in Hq as [Hq|Hq].
    + rewrite Hold in Hk by exact Hq. apply sublist_inserts_r. apply (Hord q k Hq Hk).
    + apply list_elem_of_singleton in Hq as ->.
      rewrite lookup_insert_eq in Hk. injection Hk as <-. apply sublist_nil_l.
Qed.

Lemma inv_push_child L self done l id i p kp :
  recorder_inv L self done ->
  NoDup done -> l ∉ done ->
  _id_to_trace self !! id = None -> id <> "" ->
  _id_to_trace self !! i = Some p -> L !! p = Some kp ->
  recorder_inv
    (<[l := mkLink (Some id) (Some i) []]>
       (<[p := mkLink (lk_id kp) (lk_parent kp) (lk_children kp ++ [l])]> L))
    (entered_tracer self id l (_traces self)) (done ++ [l]).
Proof.
  intros [Hkeys Hdone Hcur Hshape Hroots Hord] Hnd Hl Hid Hne Hi Hp.
  set (kp' := mkLink (lk_id kp) (lk_parent kp) (lk_children kp ++ [l])).
  set (kl := mkLink (Some id) (Some i) []).
  destruct (Hkeys i p Hi) as (Hine & Hpdone & kp0 & Hp0 & Hpid).
  rewrite Hp in Hp0. injection Hp0 as <-.
  assert (Hpl : p <> l) by (intros ->; contradiction).
  assert (Hold : forall q k, q ∈ done -> L !! q = Some k ->
            exists k', (<[l := kl]> (<[p := kp']> L)) !! q = Some k' /\
                       lk_id k' = lk_id k /\ lk_parent k' = lk_parent k /\
                       (k' = k \/ (q = p /\ k = kp /\ k' = kp'))).
  { intros q k Hq Hk. rewrite lookup_insert_ne by (intros ->; contradiction).
    destruct (decide (q = p)) as [->|Hqp].
    - rewrite Hp in Hk. injection Hk as <-. exists kp'.
      rewrite lookup_insert_eq. split; [reflexivity|]. cbn.
      split; [reflexivity|]. split; [reflexivity|]. right. auto.
    - rewrite lookup_insert_ne by congruence. exists k. auto. }
  assert (Hkids : forall q k k', q ∈ done -> L !! q = Some k ->
            (<[l := kl]> (<[p := kp']> L)) !! q = Some k' ->
            forall c, c ∈ lk_children k -> c ∈ lk_children k').
  { intros q k k' Hq Hk Hk' c Hc.
    destruct (Hold q k Hq Hk) as (k'' & Hk'' & _ & _ & Hcase).
    rewrite Hk' in Hk''. injection Hk'' as <-.
    destruct Hcase as [->|(_ & -> & ->)]; [exact Hc|].
    cbn. apply elem_of_app. left. exact Hc. }
  assert (Hkey : forall j q, _id_to_trace self !! j = Some q ->
                   <[id := l]> (_id_to_trace self) !! j = Some q).
  { intros j q Hj. rewrite lookup_insert_ne; [exact Hj|]. intros ->. congruence. }
  split; cbn.
  - intros i0 q Hq. destruct (decide (i0 = id)) as [->|Hi0].
    + rewrite lookup_insert_eq in Hq. injection Hq as <-.
      split; [exact Hne|]. split; [apply elem_of_app; right; apply list_elem_of_here|].
      exists kl. split; [apply lookup_insert_eq|reflexivity].
    + rewrite lookup_insert_ne in Hq by congruence.
      destruct (Hkeys i0 q Hq) as (Hi' & Hin & k & Hk & Hkid).
      split; [exact Hi'|]. split; [apply elem_of_app; left; exact Hin|].
      destruct (Hold q k Hin Hk) as (k' & Hk' & Hid' & _).
      exists k'. split; [exact Hk'|]. rewrite Hid'. exact Hkid.
  - intros q Hq. apply elem_of_app in Hq as [Hq|Hq].
    + destruct (Hdone q Hq) as (k & iq & Hk & Hkid & Hiq & Hparent).
      destruct (Hold q k Hq Hk) as (k' & Hk' & Hid' & Hpar' & _).
      exists k', iq. split; [exact Hk'|]. split; [rewrite Hid'; exact Hkid|].
      split; [apply Hkey; exact Hiq|].
      destruct Hparent as [[Hfalsy Hr] | (j & p2 & kp2 & Hj & Hp2 & Hkp2 & Hc)].
      * left. rewrite Hpar'. split; [exact Hfalsy|exact Hr].
      * right. destruct (Hkeys j p2 Hp2) as (_ & Hp2done & _).
        destruct (Hold p2 kp2 Hp2done Hkp2) as (kp2' & Hkp2' & _).
        exists j, p2, kp2'. cbn. rewrite Hpar'.
        split; [exact Hj|]. split; [apply Hkey; exact Hp2|].
        split; [exact Hkp2'|].
        apply (Hkids p2 kp2 kp2' Hp2done Hkp2 Hkp2'). exact Hc.
    + apply list_elem_of_singleton in Hq as ->.
      exists kl, id. split; [apply lookup_insert_eq|]. cbn.
      split; [reflexivity|]. split; [apply lookup_insert_eq|].
      right. exists i, p, kp'. cbn.
      split; [reflexivity|]. split; [apply Hkey; exact Hi|].
      split; [rewrite lookup_insert_ne by congruence; apply lookup_insert_eq|].
      apply elem_of_app. right. apply list_elem_of_here.
  - right. exists id. split; [reflexivity|]. rewrite lookup_insert_eq. eauto.
  - destruct Hshape as (forest & HRep & Hr & Hperm).
    exists (graft p l <$> forest). split; [|split].
    + apply Forall_fmap. rewrite Forall_forall in *. intros s Hs. cbn.
      apply Rep_graft; [exact Hp|exact Hpl| |reflexivity|apply HRep; exact Hs].
      intros Hls. apply Hl. rewrite <- Hperm.
      apply list_elem_of_bind. exists s. auto.
    + rewrite root_graft_forest. exact Hr.
    + destruct (graft_present_forest p l forest) as [_ Hlocs].
      * apply Forall_forall. intros s _. apply graft_present.
      * rewrite Hperm. exact Hnd.
      * rewrite Hperm. exact Hpdone.
      * rewrite Hlocs, Hperm. apply Permutation_cons_append.
  - apply sublist_inserts_r. exact Hroots.
  - intros q k Hq Hk. apply elem_of_app in Hq as [Hq|Hq].
    + destruct (Hdone q Hq) as (k0 & _ & Hk0 & _).
      destruct (Hold q k0 Hq Hk0) as (k' & Hk' & _ & _ & Hcase).
      rewrite Hk in Hk'. injection Hk' as <-.
      destruct Hcase as [->|(-> & -> & ->)].
      * apply sublist_inserts_r. apply (Hord q k0 Hq Hk0).
      * cbn. apply sublist_app; [apply (Hord p kp Hq Hp)|reflexivity].
    + apply list_elem_of_singleton in Hq as ->.
      rewrite lookup_insert_eq in Hk. injection Hk as <-. apply sublist_nil_l.
Qed.

Lemma links_exited H w t output error : links (exited H w t output error) = links t.
Proof.
  unfold exited. destruct (is_none (pop_output w output)), error; reflexivity.
Qed.

Lemma pushed_cons o ops : pushed (o :: ops) = pushed [o] ++ pushed ops.
Proof. destruct o; reflexivity. Qed.

Lemma fresh_trace_inv H w trace :
  fresh_trace H w trace = true ->
  exists self t, context_var w = Some self /\ traces w !! trace = Some t /\
                 id_truthy (tr_parent_id t) = false /\
                 push_id H w t <> "" /\
                 _id_to_trace self !! push_id H w t = None.
Proof.
  unfold fresh_trace.
  destruct (context_var w) as [self|]; [|discriminate].
  destruct (traces w !! trace) as [t|]; [|discriminate].
  intros Hf. apply andb_prop in Hf as [Hf Hmap]. apply andb_prop in Hf as [Hpid Hid].
  exists self, t. split; [reflexivity|]. split; [reflexivity|].
  split; [destruct (id_truthy (tr_parent_id t)); [discriminate|reflexivity]|].
  split.
  - destruct (String.eqb_spec (push_id H w t) ""); [discriminate|assumption].
  - destruct (_id_to_trace self !! push_id H w t); [discriminate|reflexivity].
Qed.

Section RecorderRuns.
Context (H : Helpers).

(** One valid call on a state that satisfies the invariant returns, and the
    invariant holds afterwards. *)
Lemma step_inv o w self done :
  context_var w = Some self ->
  recorder_inv (links <$> traces w) self done ->
  NoDup done ->
  valid_op H o w = true ->
  (forall l, o = OpPush l -> l ∉ done) ->
  exists w' self',
    step H o w = (Ok tt, w') /\ context_var w' = Some self' /\
    recorder_inv (links <$> traces w') self' (done ++ pushed [o]).
Proof.
  intros Hctx Hinv Hnd Hvalid Hnew.
  destruct o as [l|output error]; cbn [step pushed valid_op] in *.
  - apply andb_prop in Hvalid as [Hvalid Hnorm].
    destruct (fresh_trace_inv H w l Hvalid) as (self0 & t & Hctx0 & Hl & Hpid & Hid & Hfree).
    rewrite Hctx in Hctx0. injection Hctx0 as <-.
    rewrite Hl in Hnorm.
    specialize (Hnew l eq_refl).
    destruct (inv_current _ _ _ Hinv) as [Hcur | (i & Hcur & [p Hi])].
    + pose proof (_push_root H self l w t Hl Hcur Hnorm) as Hrun.
      rewrite (push_active H _ _ _ _ _ Hctx Hrun).
      eexists _, _. split; [reflexivity|]. cbn. split; [reflexivity|].
      rewrite fmap_insert.
      apply (inv_push_root (links <$> traces w) self done l (push_id H w t) (tr_parent_id t));
        assumption.
    + destruct (inv_keys _ _ _ Hinv i p Hi) as (Hine & Hpdone & kp & Hkp & Hkpid).
      rewrite lookup_fmap in Hkp.
      destruct (traces w !! p) as [tp|] eqn:Hp; [|discriminate].
      cbn in Hkp. injection Hkp as <-. cbn in Hkpid.
      assert (Hpl : p <> l) by (intros ->; contradiction).
      pose proof (_push_child H self l w t i p tp Hl Hcur Hine Hi Hpl Hp Hnorm) as Hrun.
      rewrite (push_active H _ _ _ _ _ Hctx Hrun).
      eexists _, _. split; [reflexivity|]. cbn. split; [reflexivity|].
      rewrite !fmap_insert, Hkpid.
      apply (inv_push_child (links <$> traces w) self done l (push_id H w t) i p (links tp));
        try assumption.
      rewrite lookup_fmap, Hp. reflexivity.
  - rewrite app_nil_r.
    destruct (inv_current _ _ _ Hinv) as [Hcur | (i & Hcur & [l Hi])].
    + pose proof (_pop_no_trace H self w output error Hcur) as Hrun.
      unfold bind at 1. rewrite (pop_active H _ _ _ _ _ _ Hctx Hrun).
      eexists _, _. split; [reflexivity|]. cbn. split; [reflexivity|]. exact Hinv.
    + destruct (inv_keys _ _ _ Hinv i l Hi) as (Hine & Hldone & k & Hk & Hkid).
      rewrite lookup_fmap in Hk.
      destruct (traces w !! l) as [t|] eqn:Hl; [|discriminate].
      cbn in Hk. injection Hk as <-.
      pose proof (_pop_trace H self w output error i l t Hcur Hine Hi Hl Hvalid) as Hrun.
      unfold bind at 1. rewrite (pop_active H _ _ _ _ _ _ Hctx Hrun).
      eexists _, _. split; [reflexivity|]. cbn. split; [reflexivity|].
      rewrite fmap_insert, links_exited.
      rewrite insert_id by (rewrite lookup_fmap, Hl; reflexivity).
      apply (inv_pop _ _ _ i l (links t) Hinv Hi).
      rewrite lookup_fmap, Hl. reflexivity.
Qed.

(** A valid run on a state that satisfies the invariant returns, and the
    invariant holds afterwards for the objects pushed. *)
Lemma run_inv ops : forall w self done,
  context_var w = Some self ->
  recorder_inv (links <$> traces w) self done ->
  NoDup (done ++ pushed ops) ->
  valid_run H ops w = true ->
  exists w' self',
    run H ops w = (Ok tt, w') /\ context_var w' = Some self' /\
    recorder_inv (links <$> traces w') self' (done ++ pushed ops).
Proof.
  induction ops as [|o ops IH]; intros w self done Hctx Hinv Hnd Hvalid.
  - exists w, self. cbn. rewrite app_nil_r. auto.
  - cbn [valid_run] in Hvalid. apply andb_prop in Hvalid as [Hvo Hvr].
    rewrite pushed_cons, app_assoc in Hnd.
    assert (Hnd1 : NoDup (done ++ pushed [o])).
    { apply NoDup_app in Hnd as (Hnd1 & _ & _). exact Hnd1. }
    destruct (step_inv o w self done Hctx Hinv) as (w1 & self1 & Hstep & Hctx1 & Hinv1).
    + apply NoDup_app in Hnd1 as (Hnd0 & _ & _). exact Hnd0.
    + exact Hvo.
    + intros l ->. cbn in Hnd1. apply NoDup_app in Hnd1 as (_ & Hdisj & _).
      intros Hin. apply (Hdisj l Hin). apply list_elem_of_here.
    + rewrite Hstep in Hvr. cbn [snd] in Hvr.
      destruct (IH w1 self1 (done ++ pushed [o]) Hctx1 Hinv1 Hnd Hvr)
        as (w' & self' & Hrun & Hctx' & Hinv').
      exists w', self'. cbn [run]. rewrite (bind_ok _ _ _ _ _ Hstep).
      rewrite pushed_cons, app_assoc. auto.
Qed.

End RecorderRuns.

(** ** The call tree read back at the end *)

Lemma size_locs s : size s = length (locs s).
Proof.
  induction s as [q cs IH] using shape_nested_ind.
  cbn [size locs length]. f_equal.
  induction IH as [|c cs Hc _ IHcs]; [reflexivity|].
  rewrite bind_cons, length_app. cbn [sum_list_with]. rewrite Hc, IHcs. reflexivity.
Qed.

Lemma forest_size_locs (f : list shape) : sum_list_with size f = length (f ≫= locs).
Proof.
  induction f as [|s f IH]; [reflexivity|].
  rewrite bind_cons, length_app. cbn [sum_list_with]. rewrite size_locs, IH. reflexivity.
Qed.

Lemma Rep_serialize_forest h order (f : list shape) fuel :
  Forall (Rep (links <$> h)) f ->
  (forall q t, q ∈ f ≫= locs -> h !! q = Some t -> tr_children t `sublist_of` order) ->
  sum_list_with size f <= fuel ->
  exists js, result_mapM (serialize_trace fuel h) (root <$> f) = Ok js /\
             forest_size js = sum_list_with size f /\
             Forall (in_call_order h order) js.
Proof.
  induction 1 as [|s f Hs _ IH]; intros Hord Hfuel.
  - exists []. cbn. auto.
  - cbn [sum_list_with] in Hfuel.
    destruct (Rep_serialize h order s Hs) with (fuel := fuel)
      as (j & Hj & _ & Hsize & Hcall).
    { intros q t Hq. apply Hord. rewrite bind_cons. apply elem_of_app. left. exact Hq. }
    { lia. }
    destruct IH as (js & Hjs & Hsizes & Hcalls).
    { intros q t Hq. apply Hord. rewrite bind_cons. apply elem_of_app. right. exact Hq. }
    { lia. }
    exists (j :: js). cbn [fmap list_fmap result_mapM]. rewrite Hj, Hjs.
    unfold forest_size in *. cbn [sum_list_with]. rewrite Hsize, Hsizes.
    split; [reflexivity|]. split; [reflexivity|]. constructor; assumption.
Qed.

Lemma start_tracing_fresh w run_id node_name :
  context_var w = None ->
  start_tracing run_id node_name w =
    (Ok tt, mkWorld (traces w) (proxies w) (Some (Tracer_init run_id node_name))
              (warnings w) (uuids w) (clock w)).
Proof.
  intros Hctx.
  unfold start_tracing, current_run_id, _activate_in_context, active_instance, bind.
  rewrite Hctx. cbn. rewrite Hctx. reflexivity.
Qed.

(** A valid run from a recorder that has just been started returns, and the
    invariant holds in the state it reaches. *)
Lemma run_from_start H w0 run_id node_name ops :
  context_var w0 = None ->
  NoDup (pushed ops) ->
  valid_run H ops (snd (start_tracing run_id node_name w0)) = true ->
  exists w self,
    run H ops (snd (start_tracing run_id node_name w0)) = (Ok tt, w) /\
    context_var w = Some self /\
    recorder_inv (links <$> traces w) self (pushed ops).
Proof.
  intros Hctx Hnd Hvalid.
  rewrite (start_tracing_fresh _ _ _ Hctx) in *. cbn [snd] in *.
  apply (run_inv H ops _ (Tracer_init run_id node_name) []).
  - reflexivity.
  - apply inv_start.
  - exact Hnd.
  - exact Hvalid.
Qed.




(** ** Popping *)



Lemma push_records_trace_witness :
  exists w', push example_helpers 1 (snd (push example_helpers 0 example_started))
             = (Ok tt, w').
Proof.
  destruct (push_records_trace example_helpers
              (snd (push example_helpers 0 example_started)) 1) as [_ Hpush].
  destruct (Hpush
              (entered_tracer (Tracer_init (Some "run-1") (Some "node")) "uuid-0" 0 [0])
              (new_trace "tool_a" Tool (VDict []) 11)
              (Some 0)) as (w' & self' & t' & Hrun & _).
  - vm_compute. reflexivity.
  - vm_compute. reflexivity.
  - vm_compute. reflexivity.
  - discriminate.
  - intros p [= <-]. vm_compute. eauto.
  - vm_compute. discriminate.
  - reflexivity.
  - exists w'. exact Hrun.
Defined.

(** Outside the valid runs the recorder can raise: a root object pushed with
    a [parent_id] already set is not new, [pop] makes that identifier the
    current one, and the next [push] looks it up in [_id_to_trace]. *)
Lemma push_after_stale_parent_id_raises :
  valid_run example_helpers [OpPush 0; OpPop VNone None; OpPush 1]
    (snd (start_tracing (Some "run-1") None stale_world)) = false /\
  fst (run example_helpers [OpPush 0; OpPop VNone None; OpPush 1]
         (snd (start_tracing (Some "run-1") None stale_world)))
  = Raise (KeyError "zz").
Proof. split; vm_compute; reflexivity. Qed.

(** ** The teardown gate and the init context *)

Lemma drain_done fuel : forall p,
  length (Gate.underlying p) < fuel -> Gate.done (Gate.drain fuel p) = true.
Proof.
  induction fuel as [|fuel IH]; intros p Hlen; [lia|].
  cbn [Gate.drain]. unfold Gate.next.
  destruct (Gate.underlying p) as [|x rest] eqn:Hu; [reflexivity|].
  apply IH. cbn in *. lia.
Qed.

Lemma exhaust_done p : Gate.done (Gate.exhaust p) = true.
Proof. apply drain_done. lia. Qed.

Lemma release_only_when_exhausted g :
  Gate.resource_alive g = true ->
  Gate.resource_alive (snd (Gate.release_when_ready g)) = false ->
  Gate.all_exhausted g = true.
Proof.
  unfold Gate.release_when_ready.
  destruct (Gate.all_exhausted g); [reflexivity|]. cbn. congruence.
Qed.

(** C3.  The resource is destroyed only by a release request made when
    every registered proxy is exhausted: no other event on the gate destroys
    it, and the teardown of the init context releases the execution service
    through that request only.  With two proxies registered and the first
    read to the end, a release request is rejected and the resource stays
    alive; once the second is read to the end, the next request releases
    it. *)
Theorem release_gated_by_exhaustion :
  (forall e g,
     Gate.resource_alive g = true ->
     Gate.resource_alive (Gate.apply_event e g) = false ->
     e = Gate.Release /\ Gate.all_exhausted g = true) /\
  (forall outcome self g r self' g',
     Submitter.init_exit outcome self g = (r, self', g') ->
     Gate.resource_alive g = true ->
     Gate.resource_alive g' = false ->
     Gate.all_exhausted g = true) /\
  (forall p1 p2 g,
     Gate.registry g = [] -> Gate.resource_alive g = true ->
     Gate.done p2 = false ->
     let g1 := Gate.exhaust_at 0 (Gate.register p2 (Gate.register p1 g)) in
     let g2 := Gate.exhaust_at 1 g1 in
     Gate.all_exhausted g1 = false /\
     Gate.release_when_ready g1 = (Gate.Retry, g1) /\
     Gate.resource_alive (snd (Gate.release_when_ready g1)) = true /\
     Gate.all_exhausted g2 = true /\
     fst (Gate.release_when_ready g2) = Gate.Released /\
     Gate.resource_alive (snd (Gate.release_when_ready g2)) = false).
Proof.
  split; [|split].
  - intros e g Halive Hdead. destruct e; cbn in Hdead; try congruence.
    split; [reflexivity|]. apply release_only_when_exhausted; assumption.
  - intros outcome self g r self' g' Hexit Halive Hdead.
    unfold Submitter.init_exit, Submitter.init_finally, Submitter.rbind in Hexit.
    destruct (Submitter.executor_proxy self) as [[proxy|]|e].
    + apply release_only_when_exhausted; [exact Halive|].
      destruct outcome; injection Hexit as _ _ <-; exact Hdead.
    + destruct outcome; injection Hexit as _ _ <-; congruence.
    + injection Hexit as _ _ <-. congruence.
  - intros p1 p2 g Hreg Halive Hp2 g1 g2.
    assert (Hr1 : Gate.registry g1 = [Gate.exhaust p1; p2]).
    { unfold g1, Gate.exhaust_at, Gate.register. cbn [Gate.registry].
      rewrite Hreg. reflexivity. }
    assert (Hr2 : Gate.registry g2 = [Gate.exhaust p1; Gate.exhaust p2]).
    { unfold g2, Gate.exhaust_at. cbn [Gate.registry]. rewrite Hr1. reflexivity. }
    assert (Hg1 : Gate.all_exhausted g1 = false).
    { unfold Gate.all_exhausted. rewrite Hr1. cbn [forallb].
      rewrite exhaust_done, Hp2. reflexivity. }
    assert (Hg2 : Gate.all_exhausted g2 = true).
    { unfold Gate.all_exhausted. rewrite Hr2. cbn [forallb].
      rewrite !exhaust_done. reflexivity. }
    unfold Gate.release_when_ready. rewrite Hg1, Hg2. cbn.
    repeat split. exact Halive.
Qed.

Lemma release_gated_by_exhaustion_witness :
  let g1 := Gate.exhaust_at 0
              (Gate.register (Gate.wrap [VStr "d"; VStr "e"])
                 (Gate.register (Gate.wrap [VStr "a"; VStr "b"; VStr "c"]) example_gate)) in
  Gate.release_when_ready g1 = (Gate.Retry, g1).
Proof.
  destruct release_gated_by_exhaustion as (_ & _ & Hscenario).
  destruct (Hscenario (Gate.wrap [VStr "a"; VStr "b"; VStr "c"])
              (Gate.wrap [VStr "d"; VStr "e"]) example_gate) as (_ & Hretry & _).
  - reflexivity.
  - reflexivity.
  - reflexivity.
  - exact Hretry.
Defined.

(** Outside an init context, that is before the first one and after one
    whose body returned, the guarded members raise the user error. *)
Lemma members_raise_outside_context self execute :
  Submitter._within_init_context self = false ->
  let e := UserErrorException "This method should be called within the init context." in
  Submitter.executor_proxy self = Raise e /\
  Submitter.enable_stream_output self = Raise e /\
  Submitter.flow self = Raise e /\
  Submitter.output_base self = Raise e /\
  Submitter.relative_flow_output_path self = Raise e /\
  Submitter.target_node self = Raise e /\
  Submitter.flow_test execute self = Raise e /\
  Submitter.node_test execute self = Raise e.
Proof.
  intros Hout.
  unfold Submitter.executor_proxy, Submitter.enable_stream_output, Submitter.flow,
    Submitter.output_base, Submitter.relative_flow_output_path, Submitter.target_node,
    Submitter.flow_test, Submitter.node_test, Submitter._raise_if_not_within_init_context.
  rewrite Hout. cbn. repeat split.
Qed.

Lemma init_enter_within a c self self1 :
  Submitter.init_enter a c self = (Ok tt, self1) ->
  Submitter._within_init_context self1 = true /\
  Submitter._flow self1 = Some (Submitter.temp_flow c).
Proof.
  unfold Submitter.init_enter, Submitter.sbind, Submitter.update, Submitter.slift,
    Submitter.sret, Submitter.flow, Submitter._raise_if_not_within_init_context,
    Submitter.rbind, Submitter._resolve_connections.
  cbn.
  destruct (Submitter.init_env c); [|discriminate].
  destruct (Submitter._resolve_output_path c (Submitter.arg_output_path a)
              (Submitter.code (Submitter.temp_flow c))) as [base sub].
  destruct (Submitter.arg_connections a) as [conns|]; [destruct (truthy conns)|];
    cbn; destruct (Submitter.language (Submitter.temp_flow c)); cbn;
    try discriminate; intros [= <-]; auto.
Qed.

Lemma init_exit_returns self g :
  Submitter._within_init_context self = true ->
  exists g', Submitter.init_exit Submitter.BodyReturns self g
             = (Ok tt, Submitter.set_flow None
                         (Submitter.set_within_init_context false self), g').
Proof.
  intros Hin.
  unfold Submitter.init_exit, Submitter.init_finally, Submitter.executor_proxy,
    Submitter._raise_if_not_within_init_context, Submitter.rbind.
  rewrite Hin. cbn. destruct (Submitter._executor_proxy self); eauto.
Qed.

(** C10, at the input on which the code departs from it.  When the body of
    the [with] statement raises, [init] runs its [finally] clause and the
    exception leaves the context before [_within_init_context] is reset: the
    context is over, the flag still says it is open, and the guarded members
    hand out the flow and the execution service of the context that has
    ended where they should raise the user error. *)
Theorem members_after_exceptional_exit (a : Submitter.InitArgs)
    (c : Submitter.Collaborators) (body : Submitter.TestSubmitter -> Submitter.body_outcome)
    (self self1 : Submitter.TestSubmitter) (g : Gate.TeardownGate) (e : PyError) :
  Submitter.init_enter a c self = (Ok tt, self1) ->
  body self1 = Submitter.BodyRaises e ->
  exists g',
    Submitter.with_init a c body self g = (Raise e, self1, g') /\
    Submitter._within_init_context self1 = true /\
    Submitter.flow self1 = Ok (Some (Submitter.temp_flow c)) /\
    Submitter.executor_proxy self1 = Ok (Submitter._executor_proxy self1) /\
    Submitter.enable_stream_output self1 = Ok (Submitter._enable_stream_output self1) /\
    Submitter.output_base self1 = Ok (Submitter._output_base self1) /\
    Submitter.relative_flow_output_path self1
      = Ok (Submitter._relative_flow_output_path self1) /\
    Submitter.target_node self1 = Ok (Submitter._target_node self1).
Proof.
  intros Henter Hbody.
  destruct (init_enter_within a c self self1 Henter) as [Hin Hflow].
  unfold Submitter.with_init. rewrite Henter, Hbody.
  unfold Submitter.init_exit, Submitter.init_finally, Submitter.executor_proxy,
    Submitter.enable_stream_output, Submitter.flow, Submitter.output_base,
    Submitter.relative_flow_output_path, Submitter.target_node,
    Submitter._raise_if_not_within_init_context, Submitter.rbind.
  rewrite Hin, Hflow. cbn.
  destruct (Submitter._executor_proxy self1); eexists; repeat split.
Qed.

Lemma members_after_exceptional_exit_witness :
  exists self1 g',
    Submitter.with_init example_args example_collaborators example_body
      example_submitter example_gate
    = (Raise (UserErrorException "target_node is not allowed for flow test."), self1, g') /\
    Submitter.flow self1 = Ok (Some (Submitter.temp_flow example_collaborators)) /\
    Submitter.executor_proxy self1 = Ok (Some 1).
Proof.
  destruct (members_after_exceptional_exit example_args example_collaborators example_body
              example_submitter
              (snd (Submitter.init_enter example_args example_collaborators example_submitter))
              example_gate
              (UserErrorException "target_node is not allowed for flow test."))
    as (g' & Hwith & _ & Hflow & Hproxy & _).
  - reflexivity.
  - reflexivity.
  - eexists _, g'. split; [exact Hwith|]. split; [exact Hflow|]. exact Hproxy.
Defined.

(** * Further properties of the code *)

(** ** Dictionaries *)

Lemma dict_get_set_eq k v d : dict_get k (dict_set k v d) = Some v.
Proof.
  induction d as [|[k' v'] d IH]; cbn.
  - rewrite String.eqb_refl. reflexivity.
  - destruct (String.eqb_spec k' k) as [->|Hne]; cbn.
    + rewrite String.eqb_refl. reflexivity.
    + destruct (String.eqb_spec k' k); [contradiction|exact IH].
Qed.

Lemma dict_get_set_ne k k' v d : k <> k' -> dict_get k' (dict_set k v d) = dict_get k' d.
Proof.
  intros Hne. induction d as [|[k0 v0] d IH]; cbn.
  - destruct (String.eqb_spec k k'); [contradiction|reflexivity].
  - destruct (String.eqb_spec k0 k) as [->|Hk0]; cbn.
    + destruct (String.eqb_spec k k'); [contradiction|reflexivity].
    + destruct (String.eqb_spec k0 k'); [reflexivity|exact IH].
Qed.

Lemma dict_get_pop_eq k d : dict_get k (dict_pop k d) = None.
Proof.
  induction d as [|[k' v'] d IH]; cbn; [reflexivity|].
  destruct (String.eqb_spec k' k) as [->|Hne]; cbn; [exact IH|].
  destruct (String.eqb_spec k' k); [contradiction|exact IH].
Qed.

Lemma dict_get_pop_ne k k' d : k <> k' -> dict_get k' (dict_pop k d) = dict_get k' d.
Proof.
  intros Hne. induction d as [|[k0 v0] d IH]; cbn; [reflexivity|].
  destruct (String.eqb_spec k0 k) as [->|Hk0]; cbn.
  - destruct (String.eqb_spec k k'); [contradiction|exact IH].
  - destruct (String.eqb_spec k0 k'); [reflexivity|exact IH].
Qed.

Lemma dict_get_None_keys k d : dict_get k d = None <-> k ∉ dict_keys d.
Proof.
  unfold dict_keys. induction d as [|[k' v'] d IH]; cbn.
  - split; [intros _ Hin; inversion Hin|reflexivity].
  - rewrite not_elem_of_cons. destruct (String.eqb_spec k' k) as [->|Hne].
    + split; [discriminate|]. intros [Hk _]. contradiction.
    + rewrite IH. split; [intros Hd; split; [congruence|exact Hd]|intros [_ Hd]; exact Hd].
Qed.

Lemma dict_get_update k d1 d2 :
  NoDup (dict_keys d2) ->
  dict_get k (dict_update d1 d2)
  = match dict_get k d2 with Some v => Some v | None => dict_get k d1 end.
Proof.
  unfold dict_update, dict_keys. revert d1.
  induction d2 as [|[k0 v0] d2 IH]; intros d1 Hnd; cbn; [reflexivity|].
  cbn in Hnd. apply NoDup_cons in Hnd as [Hk0 Hnd]. rewrite (IH _ Hnd).
  destruct (String.eqb_spec k0 k) as [->|Hne].
  - apply dict_get_None_keys in Hk0. rewrite Hk0. apply dict_get_set_eq.
  - rewrite dict_get_set_ne by exact Hne. reflexivity.
Qed.

Lemma dict_get_map_values (g : pyval -> pyval) k d :
  dict_get k (map (fun kv => (fst kv, g (snd kv))) d) = g <$> dict_get k d.
Proof.
  induction d as [|[k' v'] d IH]; cbn; [reflexivity|].
  destruct (String.eqb k' k); [reflexivity|exact IH].
Qed.

Lemma dict_get_pop_all k keys d :
  dict_get k (fold_left (fun d key => dict_pop key d) keys d)
  = if decide (k ∈ keys) then None else dict_get k d.
Proof.
  revert d. induction keys as [|k0 keys IH]; intros d; cbn.
  - destruct (decide (k ∈ [])) as [Hin|_]; [inversion Hin|reflexivity].
  - rewrite IH. destruct (decide (k ∈ keys)) as [Hin|Hnotin].
    + destruct (decide (k ∈ k0 :: keys)) as [_|Hn]; [reflexivity|].
      exfalso. apply Hn. apply list_elem_of_further. exact Hin.
    + destruct (decide (k = k0)) as [->|Hne].
      * destruct (decide (k0 ∈ k0 :: keys)) as [_|Hn];
          [apply dict_get_pop_eq|exfalso; apply Hn; apply list_elem_of_here].
      * rewrite dict_get_pop_ne by congruence.
        destruct (decide (k ∈ k0 :: keys)) as [Hin|_]; [|reflexivity].
        apply elem_of_cons in Hin as [?|?]; contradiction.
Qed.

Lemma dict_keys_zip (ps : list string) (args : list pyval) :
  NoDup ps -> NoDup (dict_keys (zip ps args)).
Proof.
  unfold dict_keys. revert args. induction ps as [|p ps IH]; intros args Hnd.
  - constructor.
  - destruct args as [|a args]; [constructor|]. cbn.
    apply NoDup_cons in Hnd as [Hp Hnd]. apply NoDup_cons. split; [|apply IH; exact Hnd].
    intros Hin. apply Hp. apply list_elem_of_fmap in Hin as ([p' a'] & -> & Hin).
    cbn. apply (elem_of_zip_l _ _ _ _ Hin).
Qed.

Lemma dict_get_zip (ps : list string) (args : list pyval) i k a :
  NoDup ps -> ps !! i = Some k -> args !! i = Some a ->
  dict_get k (zip ps args) = Some a.
Proof.
  revert args i. induction ps as [|p ps IH]; intros args i Hnd Hk Ha; [destruct i; discriminate|].
  destruct args as [|a0 args]; [destruct i; discriminate|].
  apply NoDup_cons in Hnd as [Hp Hnd]. cbn.
  destruct i as [|i]; cbn in Hk, Ha.
  - injection Hk as ->. injection Ha as ->. rewrite String.eqb_refl. reflexivity.
  - destruct (String.eqb_spec p k) as [->|_].
    + exfalso. apply Hp. apply list_elem_of_lookup. eauto.
    + apply (IH args i); assumption.
Qed.

Lemma dict_get_zip_Some (ps : list string) (args : list pyval) k a :
  dict_get k (zip ps args) = Some a ->
  exists i, ps !! i = Some k /\ args !! i = Some a.
Proof.
  revert args. induction ps as [|p ps IH]; intros args Hget; [discriminate|].
  destruct args as [|a0 args]; [discriminate|]. cbn in Hget.
  destruct (String.eqb_spec p k) as [->|_].
  - injection Hget as ->. exists 0. auto.
  - destruct (IH args Hget) as (i & Hp & Ha). exists (S i). auto.
Qed.

(** ** Traces built from calls *)

Lemma all_kwargs_get C f args kwargs ignore k :
  NoDup (parameters f) -> NoDup (dict_keys kwargs) ->
  dict_get k (all_kwargs C f args kwargs ignore)
  = if decide (k ∈ ignore) then None
    else if decide (k = "self") then None
    else recorded_arg C <$> match dict_get k kwargs with
                            | Some v => Some v
                            | None => dict_get k (zip (parameters f) args)
                            end.
Proof.
  intros Hps Hkw. unfold all_kwargs. rewrite dict_get_pop_all.
  destruct (decide (k ∈ ignore)); [reflexivity|].
  destruct (decide (k = "self")) as [->|Hself]; [apply dict_get_pop_eq|].
  rewrite dict_get_pop_ne by congruence.
  rewrite (dict_get_map_values (recorded_arg C)).
  rewrite (dict_get_update k _ kwargs Hkw).
  rewrite (dict_get_update k [] _ (dict_keys_zip _ args Hps)).
  destruct (dict_get k kwargs); [reflexivity|].
  destruct (dict_get k (zip (parameters f) args)); reflexivity.
Qed.

(** X1.  The inputs recorded for a call never hold [self] nor an ignored
    name; a keyword argument is recorded under its name and wins over a
    positional argument bound to the same parameter; a positional argument
    is recorded under the name of the parameter at its position; nothing
    else is recorded, so positional arguments beyond the signature are
    dropped.  Connections are recorded in serialized form. *)
Theorem create_trace_inputs (H : Helpers) (C : ConnectionType) (f : Callable)
    (args : list pyval) (kwargs : pydict) (args_to_ignore : list string)
    (trace_type : TraceType) (w : World) :
  NoDup (parameters f) -> NoDup (dict_keys kwargs) ->
  exists t w' inputs,
    _create_trace_from_function_call H C f args kwargs args_to_ignore trace_type w
      = (Ok t, w') /\
    tr_inputs t = VDict_of inputs /\
    (forall k, k = "self" \/ k ∈ args_to_ignore -> dict_get k inputs = None) /\
    (forall k v, dict_get k kwargs = Some v -> k <> "self" -> k ∉ args_to_ignore ->
       dict_get k inputs = Some (recorded_arg C v)) /\
    (forall i k a, parameters f !! i = Some k -> args !! i = Some a ->
       dict_get k kwargs = None -> k <> "self" -> k ∉ args_to_ignore ->
       dict_get k inputs = Some (recorded_arg C a)) /\
    (forall k, is_Some (dict_get k inputs) ->
       is_Some (dict_get k kwargs) \/
       exists i, parameters f !! i = Some k /\ i < length args).
Proof.
  intros Hps Hkw.
  eexists _, _, (all_kwargs C f args kwargs args_to_ignore).
  split; [reflexivity|]. split; [reflexivity|].
  split; [|split; [|split]].
  - intros k Hk. rewrite all_kwargs_get by assumption.
    destruct (decide (k ∈ args_to_ignore)); [reflexivity|].
    destruct (decide (k = "self")); [reflexivity|]. destruct Hk; contradiction.
  - intros k v Hv Hself Hign. rewrite all_kwargs_get by assumption.
    destruct (decide (k ∈ args_to_ignore)); [contradiction|].
    destruct (decide (k = "self")); [contradiction|]. rewrite Hv. reflexivity.
  - intros i k a Hk Ha Hnone Hself Hign. rewrite all_kwargs_get by assumption.
    destruct (decide (k ∈ args_to_ignore)); [contradiction|].
    destruct (decide (k = "self")); [contradiction|].
    rewrite Hnone, (dict_get_zip _ _ i k a Hps Hk Ha). reflexivity.
  - intros k Hsome. rewrite all_kwargs_get in Hsome by assumption.
    destruct (decide (k ∈ args_to_ignore)); [destruct Hsome; discriminate|].
    destruct (decide (k = "self")); [destruct Hsome; discriminate|].
    destruct (dict_get k kwargs) as [v|]; [left; eauto|]. right.
    destruct (dict_get k (zip (parameters f) args)) as [a|] eqn:Hz;
      [|destruct Hsome; discriminate].
    destruct (dict_get_zip_Some _ _ _ _ Hz) as (i & Hp & Ha).
    exists i. split; [exact Hp|]. apply lookup_lt_Some in Ha. exact Ha.
Qed.

Lemma create_trace_inputs_witness :
  exists t w',
    _create_trace_from_function_call example_helpers example_connection_type example_callable
      [VObject 3; VStr "hello"; VInt 9] [("prompt", VStr "bye")] ["secret"] LLM example_world
    = (Ok t, w').
Proof.
  destruct (create_trace_inputs example_helpers example_connection_type example_callable
              [VObject 3; VStr "hello"; VInt 9] [("prompt", VStr "bye")] ["secret"] LLM
              example_world) as (t & w' & _ & Hrun & _).
  - apply (bool_decide_unpack _). vm_compute. reflexivity.
  - apply (bool_decide_unpack _). vm_compute. reflexivity.
  - exists t, w'. exact Hrun.
Defined.

(** ** Generator outputs and flow inputs of the submitter *)

Lemma dict_get_app k (a b : pydict) :
  dict_get k (a ++ b) = match dict_get k a with Some v => Some v | None => dict_get k b end.
Proof.
  induction a as [|[k' v'] a IH]; cbn; [reflexivity|].
  destruct (String.eqb k' k); [reflexivity|exact IH].
Qed.

Lemma dict_keys_filter (P : string * pyval -> Prop) `{!forall x, Decision (P x)} (d : pydict) :
  NoDup (dict_keys d) -> NoDup (dict_keys (filter P d)).
Proof.
  unfold dict_keys. intros Hnd. induction d as [|kv d IH]; [constructor|].
  cbn in Hnd. apply NoDup_cons in Hnd as [Hk Hnd].
  rewrite filter_cons. destruct (decide (P kv)); [|apply IH; exact Hnd].
  cbn. apply NoDup_cons. split; [|apply IH; exact Hnd].
  intros Hin. apply Hk. apply list_elem_of_fmap in Hin as (kv' & -> & Hin).
  apply list_elem_of_fmap. exists kv'. split; [reflexivity|].
  apply list_elem_of_filter in Hin as [_ Hin]. exact Hin.
Qed.

Lemma dict_get_filter (p : pyval -> bool) k (d : pydict) :
  NoDup (dict_keys d) ->
  dict_get k (filter (fun kv => p (snd kv) = true) d)
  = match dict_get k d with
    | Some v => if p v then Some v else None
    | None => None
    end.
Proof.
  unfold dict_keys. intros Hnd. induction d as [|[k' v'] d IH]; [reflexivity|].
  cbn in Hnd. apply NoDup_cons in Hnd as [Hk Hnd].
  rewrite filter_cons. cbn.
  destruct (String.eqb_spec k' k) as [->|Hne].
  - destruct (decide (p v' = true)) as [Hp|Hp].
    + cbn. rewrite String.eqb_refl, Hp. reflexivity.
    + rewrite (IH Hnd). apply dict_get_None_keys in Hk. rewrite Hk.
      destruct (p v'); [contradiction|reflexivity].
  - destruct (decide (p v' = true)); [|apply IH; exact Hnd].
    cbn. destruct (String.eqb_spec k' k); [contradiction|apply IH; exact Hnd].
Qed.

Lemma dict_keys_map_values (g : pyval -> pyval) (d : pydict) :
  dict_keys (map (fun kv => (fst kv, g (snd kv))) d) = dict_keys d.
Proof. unfold dict_keys. rewrite map_map. reflexivity. Qed.

Lemma dict_set_not_empty k v d : dict_set k v d <> [].
Proof. destruct d as [|[k' v'] d]; cbn; [|destruct (String.eqb k' k)]; discriminate. Qed.

Lemma dict_update_not_empty d items : d <> [] -> dict_update d items <> [].
Proof.
  unfold dict_update. revert d. induction items as [|kv items IH]; intros d Hd; [exact Hd|].
  cbn. apply IH. apply dict_set_not_empty.
Qed.

(** X3.  [_get_generator_outputs] keeps exactly the keys whose value is a
    generator and binds each of them to the whole outputs dictionary (not to
    the generator); it is empty exactly when no output is a generator, and
    it is empty for [None]. *)
Theorem generator_outputs_lookup (is_generator : pyval -> bool) (outputs : pydict) :
  NoDup (dict_keys outputs) ->
  (forall k,
     dict_get k (SubmitterData._get_generator_outputs is_generator (Some outputs))
     = match dict_get k outputs with
       | Some v => if is_generator v then Some (VDict_of outputs) else None
       | None => None
       end) /\
  (SubmitterData._get_generator_outputs is_generator (Some outputs) = [] <->
   forall k v, dict_get k outputs = Some v -> is_generator v = false) /\
  SubmitterData._get_generator_outputs is_generator None = [].
Proof.
  intros Hnd.
  assert (Hget : forall k,
     dict_get k (SubmitterData._get_generator_outputs is_generator (Some outputs))
     = match dict_get k outputs with
       | Some v => if is_generator v then Some (VDict_of outputs) else None
       | None => None
       end).
  { intros k. unfold SubmitterData._get_generator_outputs.
    rewrite dict_get_update.
    - rewrite (dict_get_map_values (fun _ => VDict_of outputs)).
      rewrite (dict_get_filter is_generator k outputs Hnd).
      destruct (dict_get k outputs) as [v|]; [|reflexivity].
      destruct (is_generator v); reflexivity.
    - rewrite (dict_keys_map_values (fun _ => VDict_of outputs)).
      apply dict_keys_filter. exact Hnd. }
  split; [exact Hget|]. split; [|reflexivity].
  split.
  - intros Hempty k v Hv. specialize (Hget k). rewrite Hempty, Hv in Hget. cbn in Hget.
    destruct (is_generator v); [discriminate|reflexivity].
  - intros Hnone. unfold SubmitterData._get_generator_outputs.
    destruct (filter (fun kv => is_generator (snd kv) = true) outputs) as [|[k v] rest] eqn:Hf;
      [reflexivity|].
    exfalso.
    assert (Hin : (k, v) ∈ filter (fun kv => is_generator (snd kv) = true) outputs).
    { rewrite Hf. apply list_elem_of_here. }
    apply list_elem_of_filter in Hin as [Hgen Hin]. cbn in Hgen.
    pose proof (dict_get_filter is_generator k outputs Hnd) as Hk.
    rewrite Hf in Hk. cbn in Hk. rewrite String.eqb_refl in Hk.
    destruct (dict_get k outputs) as [v'|] eqn:Hv'; [|discriminate].
    specialize (Hnone k v' Hv'). rewrite Hnone in Hk. discriminate.
Qed.

Lemma generator_outputs_lookup_witness :
  SubmitterData._get_generator_outputs is_generator_value
    (Some [("answer", VGenerator 0); ("score", VInt 1)])
  <> [].
Proof.
  destruct (generator_outputs_lookup is_generator_value
              [("answer", VGenerator 0); ("score", VInt 1)]) as (_ & Hempty & _).
  - apply (bool_decide_unpack _). vm_compute. reflexivity.
  - intros Hnil. destruct Hempty as [Hfwd _].
    specialize (Hfwd Hnil "answer" (VGenerator 0) eq_refl). discriminate.
Defined.

Lemma dict_keys_pop k (d : pydict) : NoDup (dict_keys d) -> NoDup (dict_keys (dict_pop k d)).
Proof.
  unfold dict_keys. intros Hnd. induction d as [|[k' v'] d IH]; [constructor|].
  cbn in Hnd. apply NoDup_cons in Hnd as [Hk Hnd]. cbn.
  destruct (String.eqb k' k); [apply IH; exact Hnd|].
  cbn. apply NoDup_cons. split; [|apply IH; exact Hnd].
  intros Hin. apply Hk. change (k' ∈ dict_keys d).
  destruct (decide (k' ∈ dict_keys d)) as [Hyes|Hno]; [exact Hyes|].
  exfalso. change (k' ∈ dict_keys (dict_pop k d)) in Hin.
  apply dict_get_None_keys in Hno.
  assert (Hpop : dict_get k' (dict_pop k d) = None).
  { destruct (decide (k = k')) as [->|Hne]; [apply dict_get_pop_eq|].
    rewrite dict_get_pop_ne by exact Hne. exact Hno. }
  apply dict_get_None_keys in Hpop. contradiction.
Qed.

(** The loop of [resolve_data] over the declared inputs. *)
Lemma resolve_loop c (I : pydict) (D : list (string * pyval)) :
  NoDup (dict_keys I) -> NoDup (dict_keys D) ->
  exists inp fi miss,
    fold_left (SubmitterData.resolve_step c) D (I, [], []) = (inp, fi, miss) /\
    NoDup (dict_keys inp) /\
    (forall k, dict_get k inp = if decide (k ∈ dict_keys D) then None else dict_get k I) /\
    (forall k, dict_get k fi
               = match dict_get k D with
                 | Some default =>
                     if required_missing I c (k, default) then None
                     else Some (match dict_get k I with
                                | Some v => v
                                | None => if is_none default then VList [] else default
                                end)
                 | None => None
                 end) /\
    miss = map fst (filter (fun d => required_missing I c d = true) D).
Proof.
  intros HI. induction D as [|[name default] D IH] using rev_ind; intros HD.
  - exists I, [], []. split; [reflexivity|]. split; [exact HI|].
    split; [|split; reflexivity].
    intros k. destruct (decide (k ∈ dict_keys [])) as [Hin|_]; [inversion Hin|reflexivity].
  - assert (HD' : NoDup (dict_keys D ++ [name])).
    { unfold dict_keys in *. rewrite map_app in HD. exact HD. }
    clear HD. apply NoDup_app in HD' as (HD & Hdisj & _).
    assert (Hname : name ∉ dict_keys D).
    { intros Hin. apply (Hdisj name Hin). apply list_elem_of_here. }
    destruct (IH HD) as (inp & fi & miss & Hfold & Hnd & Hinp & Hfi & Hmiss).
    rewrite fold_left_app, Hfold. cbn [fold_left SubmitterData.resolve_step].
    assert (HnameD : dict_get name D = None) by (apply dict_get_None_keys; exact Hname).
    assert (Hget : dict_get name inp = dict_get name I).
    { rewrite Hinp. destruct (decide (name ∈ dict_keys D)); [contradiction|reflexivity]. }
    assert (Hkeys : forall k, k ∈ dict_keys (D ++ [(name, default)])
                                <-> k ∈ dict_keys D \/ k = name).
    { intros k. unfold dict_keys. rewrite map_app, elem_of_app. cbn.
      rewrite list_elem_of_singleton. reflexivity. }
    assert (Hlook : forall k, dict_get k (D ++ [(name, default)])
                      = if decide (k = name) then Some default else dict_get k D).
    { intros k. rewrite dict_get_app. cbn.
      destruct (decide (k = name)) as [->|Hne].
      - rewrite HnameD, String.eqb_refl. reflexivity.
      - destruct (String.eqb_spec name k); [congruence|].
        destruct (dict_get k D); reflexivity. }
    assert (Hmissing : map fst (filter (fun d => required_missing I c d = true)
                                  (D ++ [(name, default)]))
                       = miss ++ (if required_missing I c (name, default) then [name] else [])).
    { rewrite filter_app, map_app, <- Hmiss. f_equal.
      rewrite filter_cons, filter_nil.
      destruct (required_missing I c (name, default));
        destruct (decide (_ = true)); try reflexivity; congruence. }
    assert (Hinp' : forall inp', (forall k, dict_get k inp'
                       = if decide (k = name) then None else dict_get k inp) ->
              forall k, dict_get k inp'
                        = if decide (k ∈ dict_keys (D ++ [(name, default)])) then None
                          else dict_get k I).
    { intros inp' Hinp' k. rewrite Hinp', Hinp.
      destruct (decide (k = name)) as [->|Hne].
      - destruct (decide (name ∈ dict_keys (D ++ [(name, default)]))) as [_|Hn];
          [reflexivity|]. exfalso. apply Hn. apply Hkeys. auto.
      - destruct (decide (k ∈ dict_keys D)) as [Hin|Hnin];
          destruct (decide (k ∈ dict_keys (D ++ [(name, default)]))) as [Hin'|Hnin'];
          try reflexivity.
        + exfalso. apply Hnin'. apply Hkeys. auto.
        + exfalso. apply Hkeys in Hin' as [?|?]; contradiction. }
    set (chat := id_truthy c && match c with
                                | Some c0 => String.eqb name c0
                                | None => false
                                end) in *.
    assert (Hreq : required_missing I c (name, default)
                   = match dict_get name I with
                     | Some _ => false
                     | None => is_none default && negb chat
                     end) by reflexivity.
    rewrite Hreq in Hmissing. rewrite Hget.
    destruct (dict_get name I) as [v|] eqn:Hv.
    { exists (dict_pop name inp), (dict_set name v fi), miss.
      split; [reflexivity|]. split; [apply dict_keys_pop; exact Hnd|].
      split; [|split].
      - apply Hinp'. intros k. destruct (decide (k = name)) as [->|Hne];
          [apply dict_get_pop_eq|apply dict_get_pop_ne; congruence].
      - intros k. rewrite Hlook. destruct (decide (k = name)) as [->|Hne].
        + rewrite dict_get_set_eq, Hreq, Hv. reflexivity.
        + rewrite dict_get_set_ne by congruence. apply Hfi.
      - rewrite Hmissing, app_nil_r. reflexivity. }
    assert (Hkeep : forall k, dict_get k inp
                      = if decide (k = name) then None else dict_get k inp).
    { intros k. destruct (decide (k = name)) as [->|_]; [|reflexivity].
      rewrite Hget. reflexivity. }
    destruct (is_none default) eqn:Hd; [destruct chat eqn:Hc|]; cbn in Hmissing.
    { exists inp, (dict_set name (VList []) fi), miss.
      split; [reflexivity|]. split; [exact Hnd|]. split; [|split].
      - apply Hinp'. exact Hkeep.
      - intros k. rewrite Hlook. destruct (decide (k = name)) as [->|Hne].
        + rewrite dict_get_set_eq, Hreq, Hv, Hd. reflexivity.
        + rewrite dict_get_set_ne by congruence. apply Hfi.
      - rewrite Hmissing, app_nil_r. reflexivity. }
    { exists inp, fi, (miss ++ [name]).
      split; [reflexivity|]. split; [exact Hnd|]. split; [|split].
      - apply Hinp'. exact Hkeep.
      - intros k. rewrite Hlook. destruct (decide (k = name)) as [->|Hne].
        + rewrite Hfi, HnameD, Hreq, Hv, Hd. reflexivity.
        + apply Hfi.
      - rewrite Hmissing. reflexivity. }
    { exists inp, (dict_set name default fi), miss.
      split; [reflexivity|]. split; [exact Hnd|]. split; [|split].
      - apply Hinp'. exact Hkeep.
      - intros k. rewrite Hlook. destruct (decide (k = name)) as [->|Hne].
        + rewrite dict_get_set_eq, Hreq, Hv, Hd. reflexivity.
        + rewrite dict_get_set_ne by congruence. apply Hfi.
      - rewrite Hmissing, app_nil_r. reflexivity. }
Qed.

Lemma dict_get_Some_elem k v (d : pydict) : dict_get k d = Some v -> (k, v) ∈ d.
Proof.
  induction d as [|[k' v'] d IH]; cbn; [discriminate|].
  destruct (String.eqb_spec k' k) as [->|_].
  - intros [= ->]. apply list_elem_of_here.
  - intros Hget. apply list_elem_of_further. apply IH. exact Hget.
Qed.

Lemma dict_empty (d : pydict) : (forall k, dict_get k d = None) -> d = [].
Proof.
  destruct d as [|[k v] d]; [reflexivity|]. intros Hnone.
  specialize (Hnone k). cbn in Hnone. rewrite String.eqb_refl in Hnone. discriminate.
Qed.

Lemma filter_none_missing (I : pydict) c (D : list (string * pyval)) k default :
  map fst (filter (fun d => required_missing I c d = true) D) = [] ->
  dict_get k D = Some default -> required_missing I c (k, default) = false.
Proof.
  intros Hnil Hget. apply dict_get_Some_elem in Hget.
  destruct (required_missing I c (k, default)) eqn:Hreq; [|reflexivity].
  exfalso. apply map_eq_nil in Hnil.
  assert (Hin : (k, default) ∈ filter (fun d => required_missing I c d = true) D).
  { apply list_elem_of_filter. split; assumption. }
  rewrite Hnil in Hin. inversion Hin.
Qed.

(** X4.  [resolve_data] for a flow test.  It raises the user error exactly
    when some declared input has no default, was not provided and is not the
    chat history; the error names those inputs in the order of their
    declaration.  Otherwise it hands back, for every key, the provided value
    when there is one (also for keys the flow does not declare, in which
    case a warning is logged), else the declared default, else the empty
    list for the chat history; no other key is present, and no dependency
    output is produced. *)
Theorem resolve_data_flow (H : Helpers) (declared : list (string * pyval))
    (inputs : pydict) (chat_history_name : option string) :
  NoDup (dict_keys inputs) -> NoDup (dict_keys declared) ->
  let missing := map fst (filter (fun d => required_missing inputs chat_history_name d = true)
                            declared) in
  (missing <> [] ->
   SubmitterData.resolve_data H declared (Some inputs) chat_history_name
   = (Raise (UserErrorException
               ("Required input(s) " ++ py_format H (VList (map VStr missing))
                  ++ " are missing for " ++ SubmitterData.dquote ++ "flow"
                  ++ SubmitterData.dquote ++ ".")%string), [])) /\
  (missing = [] ->
   exists flow_inputs logged,
     SubmitterData.resolve_data H declared (Some inputs) chat_history_name
     = (Ok (flow_inputs, []), logged) /\
     (forall k v, dict_get k inputs = Some v -> dict_get k flow_inputs = Some v) /\
     (forall k default, dict_get k declared = Some default -> dict_get k inputs = None ->
        dict_get k flow_inputs = Some (if is_none default then VList [] else default)) /\
     (forall k, dict_get k declared = None -> dict_get k inputs = None ->
        dict_get k flow_inputs = None) /\
     (logged = [] <-> forall k, k ∈ dict_keys inputs -> k ∈ dict_keys declared)).
Proof.
  intros HI HD missing.
  destruct (resolve_loop chat_history_name inputs declared HI HD)
    as (inp & fi & miss & Hfold & Hnd & Hinp & Hfi & Hmiss).
  fold missing in Hmiss. subst miss.
  unfold SubmitterData.resolve_data. rewrite Hfold.
  split.
  { intros Hne. destruct missing; [contradiction|reflexivity]. }
  intros Hnil. rewrite Hnil.
  assert (Hfinal : forall final,
            (forall k, dict_get k final
                       = match dict_get k inp with Some v => Some v | None => dict_get k fi end) ->
            (forall k v, dict_get k inputs = Some v -> dict_get k final = Some v) /\
            (forall k default, dict_get k declared = Some default -> dict_get k inputs = None ->
               dict_get k final = Some (if is_none default then VList [] else default)) /\
            (forall k, dict_get k declared = None -> dict_get k inputs = None ->
               dict_get k final = None)).
  { intros final Hf. split; [|split].
    - intros k v Hv. rewrite Hf, Hinp, Hfi.
      destruct (decide (k ∈ dict_keys declared)) as [Hin|Hnin]; [|rewrite Hv; reflexivity].
      destruct (dict_get k declared) as [default|] eqn:Hd.
      + rewrite (filter_none_missing inputs chat_history_name declared k default Hnil Hd), Hv.
        reflexivity.
      + apply dict_get_None_keys in Hd. contradiction.
    - intros k default Hd Hnone. rewrite Hf, Hinp, Hfi, Hd.
      rewrite (filter_none_missing inputs chat_history_name declared k default Hnil Hd), Hnone.
      destruct (decide (k ∈ dict_keys declared)); reflexivity.
    - intros k Hd Hnone. rewrite Hf, Hinp, Hfi, Hd, Hnone.
      destruct (decide (k ∈ dict_keys declared)); reflexivity. }
  assert (Hleft : inp = [] <-> forall k, k ∈ dict_keys inputs -> k ∈ dict_keys declared).
  { split.
    - intros -> k Hk. specialize (Hinp k). cbn in Hinp.
      destruct (decide (k ∈ dict_keys declared)) as [Hin|_]; [exact Hin|].
      symmetry in Hinp. apply dict_get_None_keys in Hinp. contradiction.
    - intros Hall. apply dict_empty. intros k. rewrite Hinp.
      destruct (decide (k ∈ dict_keys declared)) as [_|Hnin]; [reflexivity|].
      apply dict_get_None_keys. intros Hk. apply Hnin. apply Hall. exact Hk. }
  destruct inp as [|kv inp'] eqn:Einp.
  - exists fi, []. split; [reflexivity|].
    destruct (Hfinal fi) as (F1 & F2 & F3); [intros k; reflexivity|].
    split; [exact F1|]. split; [exact F2|]. split; [exact F3|].
    split; [intros _; apply Hleft; reflexivity|reflexivity].
  - eexists _, _. split; [reflexivity|].
    destruct (Hfinal (dict_update fi (kv :: inp'))) as (F1 & F2 & F3).
    { intros k. apply dict_get_update. exact Hnd. }
    split; [exact F1|]. split; [exact F2|]. split; [exact F3|].
    split; [discriminate|]. intros Hall. apply Hleft in Hall. discriminate.
Qed.

Lemma resolve_data_flow_witness :
  exists flow_inputs logged,
    SubmitterData.resolve_data example_helpers
      [("question", VNone); ("chat_history", VNone); ("limit", VInt 3)]
      (Some [("question", VStr "hi"); ("extra", VInt 1)]) (Some "chat_history")
    = (Ok (flow_inputs, []), logged).
Proof.
  destruct (resolve_data_flow example_helpers
              [("question", VNone); ("chat_history", VNone); ("limit", VInt 3)]
              [("question", VStr "hi"); ("extra", VInt 1)] (Some "chat_history"))
    as [_ Hok].
  - apply (bool_decide_unpack _). vm_compute. reflexivity.
  - apply (bool_decide_unpack _). vm_compute. reflexivity.
  - destruct Hok as (flow_inputs & logged & Hrun & _); [reflexivity|].
    exists flow_inputs, logged. exact Hrun.
Defined.

(** ** The context across calls *)

Lemma keeps_ret {A} (a : A) (Q : A -> Prop) : Q a -> keeps_context (ret a) Q.
Proof. intros Ha w. split; [reflexivity|]. cbn. intros a' [= <-]. exact Ha. Qed.

Lemma keeps_raise {A} e (Q : A -> Prop) : keeps_context (raise e) Q.
Proof. intros w. split; [reflexivity|]. cbn. discriminate. Qed.

Lemma keeps_bind {A B} (m : M A) (f : A -> M B) (P : A -> Prop) (Q : B -> Prop) :
  keeps_context m P -> (forall a, P a -> keeps_context (f a) Q) ->
  keeps_context (bind m f) Q.
Proof.
  intros Hm Hf w. unfold bind. destruct (Hm w) as [Hctx Hres].
  destruct (m w) as [[a|e] w'] eqn:Hmw; cbn in *.
  - destruct (Hf a (Hres a eq_refl) w') as [Hctx' Hres'].
    split; [congruence|exact Hres'].
  - split; [exact Hctx|discriminate].
Qed.

Lemma keeps_any {A} (m : M A) :
  (forall w, context_var (snd (m w)) = context_var w) ->
  keeps_context m (fun _ => True).
Proof. intros Hm w. split; [apply Hm|auto]. Qed.

Lemma keeps_get_trace l : keeps_context (get_trace l) (fun _ => True).
Proof. apply keeps_any. intros w. unfold get_trace. destruct (traces w !! l); reflexivity. Qed.

Lemma keeps_modify_trace l f : keeps_context (modify_trace l f) (fun _ => True).
Proof.
  apply keeps_any. intros w. unfold modify_trace, bind, get_trace.
  destruct (traces w !! l); reflexivity.
Qed.

Lemma keeps_lift {A} (r : result A) : keeps_context (lift r) (fun _ => True).
Proof. apply keeps_any. reflexivity. Qed.

Lemma keeps__get_current_trace self :
  keeps_context (_get_current_trace self) (fun _ => True).
Proof.
  apply keeps_any. intros w. unfold _get_current_trace.
  destruct (negb (id_truthy (_current_trace_id self))); [reflexivity|].
  destruct (_current_trace_id self) as [i|]; [|reflexivity].
  destruct (_id_to_trace self !! i); reflexivity.
Qed.

(** Steps whose result is not constrained. *)
Ltac keeps :=
  repeat first
    [ apply keeps_get_trace | apply keeps_modify_trace | apply keeps_lift
    | apply keeps__get_current_trace
    | apply keeps_ret; exact I
    | apply keeps_raise
    | apply keeps_any; reflexivity
    | apply (keeps_bind _ _ (fun _ => True)); [|intros ? _]
    | progress cbv zeta
    | progress unfold when
    | match goal with
      | |- keeps_context (match ?x with _ => _ end) _ => destruct x
      | |- keeps_context (if ?x then _ else _) _ => destruct x
      end ].

Section ContextKept.
Context (H : Helpers).

Lemma keeps__push self trace :
  keeps_context (_push H self trace) (same_binding self).
Proof.
  unfold _push.
  apply (keeps_bind _ _ (fun _ => True)); [keeps|intros t _]. cbv zeta.
  apply (keeps_bind _ _ (fun _ => True)); [keeps|intros id _].
  apply (keeps_bind _ _ (fun _ => True)); [keeps|intros _ _].
  apply (keeps_bind _ _ (fun _ => True)); [keeps|intros _ _].
  apply (keeps_bind _ _ (fun _ => True)); [keeps|intros _ _].
  apply (keeps_bind _ _ (fun _ => True)); [keeps|intros parent _].
  apply (keeps_bind _ _ (same_binding self)).
  - destruct parent as [parent|].
    + apply (keeps_bind _ _ (fun _ => True)); [keeps|intros _ _].
      apply (keeps_bind _ _ (fun _ => True)); [keeps|intros p _].
      apply (keeps_bind _ _ (fun _ => True)); [keeps|intros _ _].
      apply keeps_ret. split; reflexivity.
    + apply (keeps_bind _ _ (fun _ => True)); [keeps|intros _ _].
      apply keeps_ret. split; reflexivity.
  - intros self' Hself'. apply keeps_ret. exact Hself'.
Qed.

Lemma keeps__pop self output error :
  keeps_context (_pop H self output error) (fun r => same_binding self (snd r)).
Proof.
  unfold _pop.
  apply (keeps_bind _ _ (fun _ => True)); [keeps|intros last _].
  destruct last as [last|].
  - apply (keeps_bind _ _ (fun _ => True)); [keeps|intros out _].
    apply (keeps_bind _ _ (fun _ => True)); [keeps|intros _ _].
    apply (keeps_bind _ _ (fun _ => True)); [keeps|intros _ _].
    apply (keeps_bind _ _ (fun _ => True)); [keeps|intros now _].
    apply (keeps_bind _ _ (fun _ => True)); [keeps|intros _ _].
    apply (keeps_bind _ _ (fun _ => True)); [keeps|intros t _].
    cbv zeta. destruct (is_generator_proxy out); apply keeps_ret; split; reflexivity.
  - apply (keeps_bind _ _ (fun _ => True)); [keeps|intros _ _].
    apply keeps_ret. split; reflexivity.
Qed.

Lemma step_keeps_binding o w self :
  context_var w = Some self ->
  exists self', context_var (snd (step H o w)) = Some self' /\ same_binding self self'.
Proof.
  intros Hctx. destruct o as [trace|output error]; cbn [step].
  - unfold push, active_instance. unfold bind at 1. rewrite Hctx.
    destruct (keeps__push self trace w) as [Hkeep Hres].
    unfold bind. destruct (_push H self trace w) as [[r|e] w'] eqn:Hp; cbn in *.
    + exists r. split; [reflexivity|]. apply Hres. reflexivity.
    + exists self. split; [congruence|]. split; reflexivity.
  - unfold pop, active_instance. unfold bind at 1 2. rewrite Hctx.
    destruct (keeps__pop self output error w) as [Hkeep Hres].
    unfold bind. destruct (_pop H self output error w) as [[r|e] w'] eqn:Hp; cbn in *.
    + exists (snd r). split; [reflexivity|]. apply Hres. reflexivity.
    + exists self. split; [congruence|]. split; reflexivity.
Qed.

Lemma step_without_context o w :
  context_var w = None -> step H o w = (Ok tt, w).
Proof.
  intros Hctx. destruct o; cbn [step]; unfold push, pop, active_instance, bind;
    rewrite Hctx; reflexivity.
Qed.

End ContextKept.

Lemma run_keeps_context_none (H : Helpers) ops w :
  context_var w = None -> run H ops w = (Ok tt, w).
Proof.
  revert w. induction ops as [|o ops IH]; intros w Hctx; [reflexivity|].
  cbn [run]. rewrite (bind_ok _ _ _ _ _ (step_without_context H o w Hctx)).
  apply IH. exact Hctx.
Qed.

(** X5.  Pushes and pops never detach or rebind the context.  Whatever the
    calls, and whether or not one of them raises, a context that was active
    before is active afterwards with the run id and node name it was started
    with, so [current_run_id] and [get_node_name_from_context] answer as
    before; and without a context the whole run returns and changes
    nothing. *)
Theorem run_keeps_context (H : Helpers) (ops : list op) (w : World) :
  (forall self, context_var w = Some self ->
     let w' := snd (run H ops w) in
     exists self',
       context_var w' = Some self' /\
       _run_id self' = _run_id self /\ _node_name self' = _node_name self /\
       fst (current_run_id w') = Ok (_run_id self) /\
       fst (get_node_name_from_context w') = Ok (_node_name self)) /\
  (context_var w = None -> run H ops w = (Ok tt, w)).
Proof.
  split.
  - intros self Hctx w'.
    assert (Hrun : exists self', context_var w' = Some self' /\ same_binding self self').
    { subst w'. revert w self Hctx. induction ops as [|o ops IH]; intros w self Hctx.
      - exists self. split; [exact Hctx|split; reflexivity].
      - cbn [run]. unfold bind.
        destruct (step_keeps_binding H o w self Hctx) as (self1 & Hctx1 & Hrun1 & Hnode1).
        destruct (step H o w) as [[[]|e] w1]; cbn [snd] in *.
        + destruct (IH w1 self1 Hctx1) as (self' & Hctx' & Hrun' & Hnode').
          exists self'. split; [exact Hctx'|]. split; congruence.
        + exists self1. split; [exact Hctx1|]. split; assumption. }
    destruct Hrun as (self' & Hctx' & Hrun' & Hnode').
    exists self'. split; [exact Hctx'|]. split; [exact Hrun'|]. split; [exact Hnode'|].
    unfold current_run_id, get_node_name_from_context, active_instance, bind.
    rewrite Hctx'. cbn. rewrite Hrun', Hnode'. auto.
  - apply run_keeps_context_none.
Qed.

Lemma run_keeps_context_witness :
  fst (get_node_name_from_context (snd (run example_helpers example_ops example_started)))
  = Ok (Some "node").
Proof.
  destruct (run_keeps_context example_helpers example_ops example_started) as [Hkeep _].
  destruct (Hkeep (Tracer_init (Some "run-1") (Some "node")) eq_refl)
    as (self' & _ & _ & _ & _ & Hnode).
  exact Hnode.
Defined.

(** ** What a call leaves alone *)



(** X7.  [push] on an active context changes the pushed object and, when a
    trace is current, that trace's list of children, and no other Trace
    object; of the pushed object it leaves name, type, output, error and end
    time as they were, of the parent everything but the children.  The
    identifier table gains the pushed object under its identifier and is
    otherwise unchanged, and no proxy is created.  The normalizer is taken
    to return on the inputs. *)
Theorem push_touches_trace_and_parent (H : Helpers) (w : World) (self : Tracer)
    (trace : loc) (t : Trace) (parent_trace : option loc) :
  context_var w = Some self ->
  traces w !! trace = Some t ->
  _get_current_trace self w = (Ok parent_trace, w) ->
  parent_trace <> Some trace ->
  (forall p, parent_trace = Some p -> is_Some (traces w !! p)) ->
  inputs_normalize H t = true ->
  exists w' self' t' id,
    push H trace w = (Ok tt, w') /\
    context_var w' = Some self' /\
    traces w' !! trace = Some t' /\
    tr_id t' = Some id /\
    tr_name t' = tr_name t /\ tr_type t' = tr_type t /\ tr_output t' = tr_output t /\
    tr_error t' = tr_error t /\ tr_end_time t' = tr_end_time t /\
    (forall l, l <> trace -> parent_trace <> Some l -> traces w' !! l = traces w !! l) /\
    (forall p tp, parent_trace = Some p -> traces w !! p = Some tp ->
       traces w' !! p = Some (set_children (tr_children tp ++ [trace]) tp)) /\
    _id_to_trace self' = <[id := trace]> (_id_to_trace self) /\
    _run_id self' = _run_id self /\
    proxies w' = proxies w /\ warnings w' = warnings w.
Proof.
  intros Hctx Hl Hcur Hne Hheap Hnorm.
  destruct (_get_current_trace_inv _ _ _ _ Hcur) as [_ Hcur'].
  destruct parent_trace as [parent|].
  - destruct Hcur' as (i & Hi & Hine & Hmap).
    assert (Hpt : parent <> trace) by congruence.
    destruct (Hheap parent eq_refl) as [p Hp].
    pose proof (_push_child H self trace w t i parent p Hl Hi Hine Hmap Hpt Hp Hnorm)
      as Hrun.
    rewrite (push_active H _ _ _ _ _ Hctx Hrun).
    eexists _, _, _, (push_id H w t). split; [reflexivity|]. cbn.
    split; [reflexivity|]. split; [apply lookup_insert_eq|]. cbn.
    repeat (split; [reflexivity|]).
    split.
    { intros l Hlt Hlp. rewrite lookup_insert_ne by congruence.
      apply lookup_insert_ne. congruence. }
    split.
    { intros p0 tp [= <-] Htp. rewrite Hp in Htp. injection Htp as <-.
      rewrite lookup_insert_ne by congruence. apply lookup_insert_eq. }
    repeat split.
  - pose proof (_push_root H self trace w t Hl Hcur' Hnorm) as Hrun.
    rewrite (push_active H _ _ _ _ _ Hctx Hrun).
    eexists _, _, _, (push_id H w t). split; [reflexivity|]. cbn.
    split; [reflexivity|]. split; [apply lookup_insert_eq|]. cbn.
    repeat (split; [reflexivity|]).
    split.
    { intros l Hlt _. apply lookup_insert_ne. congruence. }
    split; [intros p0 tp Hp0; discriminate|].
    repeat split.
Qed.

Lemma push_touches_trace_and_parent_witness :
  exists w', push example_helpers 2 (snd (run example_helpers (take 3 example_ops) example_started))
             = (Ok tt, w').
Proof.
  destruct (push_touches_trace_and_parent example_helpers
              (snd (run example_helpers (take 3 example_ops) example_started))
              (mkTracer (Some "run-1") (Some "node") [0] (Some "uuid-0")
                 (<["uuid-1" := 1]> (<["uuid-0" := 0]> ∅)))
              2 (new_trace "tool_b" Tool (VDict [(VStr "x", VObject 0)]) 12) (Some 0))
    as (w' & self' & t' & id & Hrun & _).
  - vm_compute. reflexivity.
  - vm_compute. reflexivity.
  - vm_compute. reflexivity.
  - discriminate.
  - intros p [= <-]. vm_compute. eauto.
  - reflexivity.
  - exists w'. exact Hrun.
Defined.

(** ** How calls compose *)



(** X9.  [end_tracing] is final and does not touch the Trace objects.  Once
    the context is detached every run of pushes and pops returns and changes
    nothing, [pop] hands back its output, another [end_tracing] returns the
    empty list and no run id is reported; a context started afterwards is a
    new one, with the new run id and no root traces. *)
Theorem end_tracing_is_final (H : Helpers) (fuel : nat) (w : World) (self : Tracer) :
  context_var w = Some self ->
  let w' := snd (end_tracing fuel None w) in
  traces w' = traces w /\
  (forall ops, run H ops w' = (Ok tt, w')) /\
  (forall output error, pop H output error w' = (Ok output, w')) /\
  (forall run_id, end_tracing fuel run_id w' = (Ok [], w')) /\
  fst (current_run_id w') = Ok None /\
  (forall run_id node_name,
     exists w'',
       start_tracing run_id node_name w' = (Ok tt, w'') /\
       fst (current_run_id w'') = Ok run_id /\
       fst (get_node_name_from_context w'') = Ok node_name /\
       fst (end_tracing fuel None w'') = Ok []).
Proof.
  intros Hctx w'. subst w'. rewrite (end_tracing_active fuel w self Hctx). cbn [snd].
  split; [reflexivity|].
  split; [intros ops; apply (run_keeps_context_none H); reflexivity|].
  split; [reflexivity|]. split; [reflexivity|]. split; [reflexivity|].
  intros run_id node_name. eexists. split; [reflexivity|].
  split; [reflexivity|]. split; [reflexivity|]. reflexivity.
Qed.

Lemma end_tracing_is_final_witness :
  traces (snd (end_tracing 3 None (snd (run example_helpers example_ops example_started))))
  = traces (snd (run example_helpers example_ops example_started)).
Proof.
  destruct (end_tracing_is_final example_helpers 3
              (snd (run example_helpers example_ops example_started))
              (mkTracer (Some "run-1") (Some "node") [0] None
                 (<["uuid-2" := 2]> (<["uuid-1" := 1]> (<["uuid-0" := 0]> ∅)))))
    as (Htraces & _).
  - vm_compute. reflexivity.
  - exact Htraces.
Defined.

(** ** Identifiers and parent links of a run *)



(** ** When the normalizer raises *)

(** X14.  What the normalizer raises reaches the caller of the recorder.
    [push] of an object on whose inputs the normalizer raises raises the
    same exception; by then the object has its identifier, nothing else is
    changed and the object is not recorded.  [pop] with an output on which
    the normalizer raises raises the same exception and changes nothing: the
    trace stays current and open. *)
Theorem normalizer_failure_reaches_caller (H : Helpers) (w : World) (self : Tracer)
    (e : PyError) :
  context_var w = Some self ->
  (forall trace t,
     traces w !! trace = Some t ->
     truthy (tr_inputs t) = true ->
     to_serializable H (tr_inputs t) = Raise e ->
     exists w', push H trace w = (Raise e, w') /\
                context_var w' = Some self /\
                (forall l, l <> trace -> traces w' !! l = traces w !! l) /\
                traces w' !! trace = Some (set_id (Some (push_id H w t)) t)) /\
  (forall last_trace output error,
     _get_current_trace self w = (Ok (Some last_trace), w) ->
     is_iterator output = false ->
     is_none output = false ->
     to_serializable H output = Raise e ->
     pop H output error w = (Raise e, w)).
Proof.
  intros Hctx. split.
  - intros trace t Hl Htin Hin.
    destruct (_push_normalizer_raises H self trace w t e Hl Htin Hin)
      as (w' & Hpush & Hctx' & Hother & Htrace).
    exists w'. split.
    + unfold push, active_instance. unfold bind at 1. rewrite Hctx.
      apply (bind_raise _ _ _ _ _ Hpush).
    + rewrite Hctx'. auto.
  - intros last_trace output error Hcur Hit Hn Ho.
    destruct (_get_current_trace_inv _ _ _ _ Hcur) as [_ (i & Hi & Hine & Hmap)].
    unfold pop, active_instance. unfold bind at 1. rewrite Hctx.
    apply bind_raise.
    apply (_pop_normalizer_raises H self w output error i last_trace e Hi Hine Hmap Hit Hn Ho).
Qed.

Lemma normalizer_failure_reaches_caller_witness :
  pop example_helpers (VObject 5) None (snd (push example_helpers 0 example_started))
  = (Raise (mkPyError "RuntimeError" "__str__ failed"),
     snd (push example_helpers 0 example_started)).
Proof.
  destruct (normalizer_failure_reaches_caller example_helpers
              (snd (push example_helpers 0 example_started))
              (entered_tracer (Tracer_init (Some "run-1") (Some "node")) "uuid-0" 0 [0])
              (mkPyError "RuntimeError" "__str__ failed")) as [_ Hpop].
  - vm_compute. reflexivity.
  - apply (Hpop 0 (VObject 5) None); vm_compute; reflexivity.
Defined.

(** ** The init context, on the paths where it works *)

(** X11.  When the set-up succeeds and the body of the [with] statement
    returns, the context closes: [with_init] returns, the execution service
    (if one was created) has been asked for release once through the gate,
    the flow is reset, and from then on every guarded member raises the user
    error. *)
Theorem init_context_closes (a : Submitter.InitArgs) (c : Submitter.Collaborators)
    (body : Submitter.TestSubmitter -> Submitter.body_outcome)
    (self self1 : Submitter.TestSubmitter) (g : Gate.TeardownGate)
    (execute : Submitter.TestSubmitter -> result pyval) :
  Submitter.init_enter a c self = (Ok tt, self1) ->
  body self1 = Submitter.BodyReturns ->
  exists self2 g',
    Submitter.with_init a c body self g = (Ok tt, self2, g') /\
    g' = match Submitter._executor_proxy self1 with
         | Some _ => snd (Gate.release_when_ready g)
         | None => g
         end /\
    Submitter._within_init_context self2 = false /\
    Submitter._flow self2 = None /\
    let e := UserErrorException "This method should be called within the init context." in
    Submitter.executor_proxy self2 = Raise e /\
    Submitter.enable_stream_output self2 = Raise e /\
    Submitter.flow self2 = Raise e /\
    Submitter.output_base self2 = Raise e /\
    Submitter.relative_flow_output_path self2 = Raise e /\
    Submitter.target_node self2 = Raise e /\
    Submitter.flow_test execute self2 = Raise e /\
    Submitter.node_test execute self2 = Raise e.
Proof.
  intros Henter Hbody.
  destruct (init_enter_within a c self self1 Henter) as [Hin _].
  unfold Submitter.with_init. rewrite Henter, Hbody.
  unfold Submitter.init_exit, Submitter.init_finally, Submitter.executor_proxy at 1,
    Submitter._raise_if_not_within_init_context, Submitter.rbind.
  rewrite Hin. cbn [negb].
  exists (Submitter.set_flow None (Submitter.set_within_init_context false self1)).
  exists (match Submitter._executor_proxy self1 with
          | Some _ => snd (Gate.release_when_ready g)
          | None => g
          end).
  split; [destruct (Submitter._executor_proxy self1); reflexivity|].
  split; [reflexivity|].
  split; [reflexivity|]. split; [reflexivity|].
  apply (members_raise_outside_context _ execute). reflexivity.
Qed.

Lemma init_context_closes_witness :
  exists self2 g',
    Submitter.with_init example_args example_collaborators (fun _ => Submitter.BodyReturns)
      example_submitter example_gate = (Ok tt, self2, g') /\
    Submitter.flow self2
    = Raise (UserErrorException "This method should be called within the init context.").
Proof.
  destruct (init_context_closes example_args example_collaborators
              (fun _ => Submitter.BodyReturns) example_submitter
              (snd (Submitter.init_enter example_args example_collaborators example_submitter))
              example_gate (fun _ => Ok VNone))
    as (self2 & g' & Hwith & _ & _ & _ & _ & _ & Hflow & _).
  - reflexivity.
  - reflexivity.
  - exists self2, g'. split; [exact Hwith|exact Hflow].
Defined.

(** X12.  What a successful set-up of [init] leaves behind.  The submitter
    is bound to the resolved flow, to the target node and the stream flag of
    the call, and to the given connections when they are not empty and to
    the resolved ones otherwise.  With an output path given, the output base
    is that path and the relative output path is [output] (the sub-directory
    [Path(".")] adds no part); otherwise the base is the flow's code
    directory and the relative output path is [output] under the prompt flow
    directory.  An execution service is created for a C# flow and for no
    other.  The set-up can only have succeeded when the environment was
    initialised and connections were given or the flow is a Python or a C#
    flow. *)
Theorem init_sets_up (a : Submitter.InitArgs) (c : Submitter.Collaborators)
    (self self1 : Submitter.TestSubmitter) :
  Submitter.init_enter a c self = (Ok tt, self1) ->
  let given := match Submitter.arg_connections a with
               | Some conns => truthy conns
               | None => false
               end in
  let lang := Submitter.language (Submitter.temp_flow c) in
  Submitter.init_env c = Ok tt /\
  (given = true \/ lang = Submitter.Python \/ lang = Submitter.CSharp) /\
  Submitter.flow self1 = Ok (Some (Submitter.temp_flow c)) /\
  Submitter.target_node self1 = Ok (Submitter.arg_target_node a) /\
  Submitter.enable_stream_output self1 = Ok (Some (Submitter.arg_stream_output a)) /\
  Submitter.output_base self1
    = Ok (Some (match Submitter.arg_output_path a with
                | Some b => if id_truthy (Some b) then b
                            else Submitter.code (Submitter.temp_flow c)
                | None => Submitter.code (Submitter.temp_flow c)
                end)) /\
  Submitter.relative_flow_output_path self1
    = Ok (Some (if id_truthy (Submitter.arg_output_path a) then ["output"]
                else [Submitter.PROMPT_FLOW_DIR_NAME c; "output"])) /\
  Submitter._connections self1
    = (if given then Submitter.arg_connections a
       else Some (Submitter.resolved_connections c)) /\
  Submitter.executor_proxy self1
    = Ok (match lang with
          | Submitter.CSharp => Some (Submitter.created_executor_proxy c)
          | _ => Submitter._executor_proxy self
          end).
Proof.
  unfold Submitter.init_enter, Submitter.sbind, Submitter.update, Submitter.slift,
    Submitter.sret, Submitter.flow, Submitter.target_node, Submitter.enable_stream_output,
    Submitter.output_base, Submitter.relative_flow_output_path, Submitter.executor_proxy,
    Submitter._raise_if_not_within_init_context,
    Submitter.rbind, Submitter._resolve_connections, Submitter._resolve_output_path.
  cbn.
  destruct (Submitter.init_env c) as [[]|e]; [|discriminate].
  destruct (Submitter.arg_output_path a) as [b|];
    [cbn; match goal with |- context [negb ?x] => destruct x end|];
    (destruct (Submitter.arg_connections a) as [conns|]; [destruct (truthy conns)|]);
    cbn; destruct (Submitter.language (Submitter.temp_flow c)); cbn;
    try discriminate; intros [= <-]; cbn;
    repeat split;
    solve [left; reflexivity | right; left; reflexivity | right; right; reflexivity].
Qed.

Lemma init_sets_up_witness :
  Submitter.relative_flow_output_path
    (snd (Submitter.init_enter example_args_output example_collaborators example_submitter))
  = Ok (Some ["output"]) /\
  Submitter.relative_flow_output_path
    (snd (Submitter.init_enter example_args example_collaborators example_submitter))
  = Ok (Some [".promptflow"; "output"]).
Proof.
  split.
  - exact (proj1 (proj2 (proj2 (proj2 (proj2 (proj2 (proj2
      (init_sets_up example_args_output example_collaborators example_submitter
         (snd (Submitter.init_enter example_args_output example_collaborators
                 example_submitter))
         eq_refl)))))))).
  - exact (proj1 (proj2 (proj2 (proj2 (proj2 (proj2 (proj2
      (init_sets_up example_args example_collaborators example_submitter
         (snd (Submitter.init_enter example_args example_collaborators example_submitter))
         eq_refl)))))))).
Defined.

(** X13.  Inside the init context the target node decides which test may
    run.  With no target node [flow_test] runs and [node_test] raises the
    user error; with a non-empty target node [flow_test] raises the user
    error and [node_test] runs, unless the flow is a C# flow, for which it
    raises [NotSupported].  Both tests can go through on the same submitter
    only when the target node is the empty string. *)
Theorem test_kind_by_target_node (execute : Submitter.TestSubmitter -> result pyval)
    (self : Submitter.TestSubmitter) (f : Submitter.Flow) :
  Submitter._within_init_context self = true ->
  Submitter._flow self = Some f ->
  let node_run :=
    match Submitter.language f with
    | Submitter.CSharp =>
        Raise (mkPyError "NotSupported" "Node test is not supported for CSharp flow for now.")
    | _ => execute self
    end in
  (Submitter._target_node self = None ->
   Submitter.flow_test execute self = execute self /\
   Submitter.node_test execute self
   = Raise (UserErrorException "target_node is required for node test.")) /\
  (forall n, Submitter._target_node self = Some n -> n <> "" ->
   Submitter.flow_test execute self
   = Raise (UserErrorException "target_node is not allowed for flow test.") /\
   Submitter.node_test execute self = node_run) /\
  (Submitter._target_node self = Some "" ->
   Submitter.flow_test execute self = execute self /\
   Submitter.node_test execute self = node_run) /\
  (forall r1 r2,
   Submitter.flow_test execute self = Ok r1 ->
   Submitter.node_test execute self = Ok r2 ->
   Submitter._target_node self = Some "").
Proof.
  intros Hin Hflow.
  unfold Submitter.flow_test, Submitter.node_test, Submitter.target_node, Submitter.flow,
    Submitter._raise_if_not_within_init_context, Submitter.rbind.
  rewrite Hin, Hflow. cbn [negb].
  assert (Hlang : match f with
                  | Submitter.mkFlow Submitter.CSharp _ _ =>
                      Raise (mkPyError "NotSupported"
                               "Node test is not supported for CSharp flow for now.")
                  | _ => execute self
                  end
                  = match Submitter.language f with
                    | Submitter.CSharp =>
                        Raise (mkPyError "NotSupported"
                                 "Node test is not supported for CSharp flow for now.")
                    | _ => execute self
                    end).
  { destruct f as [[] ? ?]; reflexivity. }
  rewrite Hlang. clear Hlang. cbv zeta.
  split; [|split; [|split]].
  - intros ->. split; reflexivity.
  - intros n -> Hn. cbn.
    destruct (String.eqb_spec n "") as [->|_]; [contradiction|]. split; reflexivity.
  - intros ->. split; reflexivity.
  - intros r1 r2. destruct (Submitter._target_node self) as [n|]; [|discriminate 2].
    cbn. destruct (String.eqb_spec n "") as [->|_]; [reflexivity|discriminate 1].
Qed.

Lemma test_kind_by_target_node_witness :
  let self := snd (Submitter.init_enter example_args example_collaborators example_submitter) in
  Submitter.flow_test (fun _ => Ok VNone) self
  = Raise (UserErrorException "target_node is not allowed for flow test.") /\
  Submitter.node_test (fun _ => Ok VNone) self
  = Raise (mkPyError "NotSupported" "Node test is not supported for CSharp flow for now.").
Proof.
  exact (proj1 (proj2
    (test_kind_by_target_node (fun _ => Ok VNone)
       (snd (Submitter.init_enter example_args example_collaborators example_submitter))
       (Submitter.temp_flow example_collaborators) eq_refl eq_refl))
    "node_a" eq_refl ltac:(discriminate)).
Defined.
